(** * teuthology/suite.py: scheduling a suite and collecting its results

    A shallow embedding of the entry points [main], [ls] and [results] of
    [teuthology/suite.py], together with the properties of the combination
    generator, the dispatcher, the listing, the result poller, the
    aggregator and the composed report.

    Python [str] values are Rocq [string]s (byte strings, compared
    bytewise as Python 2 does), Python lists are [list]s, dictionaries
    are [gmap]s, [None]-or-value arguments are [option]s, exceptions are
    the [Raise] branch of [result].  Logging and the message printed on
    standard error are not part of the model. *)

From Stdlib Require Import ZArith Lia Ascii.
From stdpp Require Import base tactics option list sorting strings gmap pretty.

Local Open Scope Z_scope.
Local Open Scope nat_scope.

(** ** Python string primitives *)

Module Py.

(** [s.startswith(pre)] *)
Definition startswith (s pre : string) : bool := String.prefix pre s.

(** [s.endswith(suf)] *)
Definition endswith (s suf : string) : bool :=
  String.prefix (String.rev suf) (String.rev s).

(** [sep.join(l)] *)
Definition join (sep : string) (l : list string) : string :=
  String.concat sep l.

(** Truth value of a string: the empty string is false. *)
Definition nonempty (s : string) : bool :=
  match s with "" => false | _ => true end.

(** Truth value of an argparse argument that is [None] or a string. *)
Definition truthy (o : option string) : bool :=
  match o with Some s => nonempty s | None => false end.

(** [sorted(l)] on strings.  The order is total and antisymmetric, so the
    ascending arrangement of a list is unique and any sorting algorithm
    returns what Python's does. *)
Definition sorted (l : list string) : list string := merge_sort String.le l.

(** Comparison of 2-tuples of strings: the first components decide unless
    they are equal. *)
Definition tuple_le (a b : string * string) : Prop :=
  if decide (a.1 = b.1) then String.le a.2 b.2 else String.le a.1 b.1.

#[global] Instance tuple_le_dec : RelDecision tuple_le.
Proof. intros a b. unfold tuple_le. destruct (decide (a.1 = b.1)); apply _. Defined.

(** [sorted(l)] on 2-tuples of strings. *)
Definition sorted_tuples (l : list (string * string)) : list (string * string) :=
  merge_sort tuple_le l.

(** [itertools.product] applied to the pools, following the equivalent
    code of the Python documentation: the result starts as the list holding
    the empty combination, and every pool in turn replaces it by
    [x+[y] for x in result for y in pool]. *)
Definition product {A} (pools : list (list A)) : list (list A) :=
  foldl (fun result pool => x ← result; y ← pool; [x ++ [y]]) [[]] pools.

End Py.

(** ** [os.path] (posixpath) *)

Module OsPath.

Definition slash : ascii := "/"%char.

(** One step of [posixpath.join]: an absolute component restarts the
    path, otherwise it is appended after exactly one separator. *)
Definition join2 (path b : string) : string :=
  if Py.startswith b "/" then b
  else if negb (Py.nonempty path) || Py.endswith path "/" then path +:+ b
  else path +:+ "/" +:+ b.

(** [os.path.join] of [a] and the further components [p] *)
Definition join (a : string) (p : list string) : string := foldl join2 a p.

(** [p[p.rfind('/')+1:]], scanning with the reversed current segment. *)
Fixpoint basename_go (cur p : string) : string :=
  match p with
  | "" => String.rev cur
  | String c r =>
      if Ascii.eqb c slash then basename_go "" r else basename_go (String c cur) r
  end.

(** [os.path.basename(p)] *)
Definition basename (p : string) : string := basename_go "" p.

(** Drop the characters before the first separator of a reversed path:
    what is left is the reversed [p[:p.rfind('/')+1]]. *)
Fixpoint rev_head (r : string) : string :=
  match r with
  | "" => ""
  | String c r' => if Ascii.eqb c slash then r else rev_head r'
  end.

Fixpoint all_slashes (s : string) : bool :=
  match s with
  | "" => true
  | String c r => Ascii.eqb c slash && all_slashes r
  end.

(** [rstrip('/')] on the reversed string. *)
Fixpoint lstrip_slashes (s : string) : string :=
  match s with
  | "" => ""
  | String c r => if Ascii.eqb c slash then lstrip_slashes r else s
  end.

(** [os.path.dirname(p)] *)
Definition dirname (p : string) : string :=
  let head := rev_head (String.rev p) in
  if Py.nonempty head && negb (all_slashes head)
  then String.rev (lstrip_slashes head)
  else String.rev head.

End OsPath.

(** ** Exceptions and the environment *)

Inductive exn : Type :=
| OSError (path : string)
| IOError (errno : Z)
| YAMLError
| TypeError
| ValueError
| KeyError (key : string)
| CalledProcessError (argv : list string)
| SystemExit (code : Z).

Inductive result (A : Type) : Type :=
| Ok (a : A)
| Raise (e : exn).
Arguments Ok {A} a.
Arguments Raise {A} e.

#[global] Instance result_ret : MRet result := fun _ a => Ok a.
#[global] Instance result_bind : MBind result := fun _ _ k m =>
  match m with Ok a => k a | Raise e => Raise e end.

(** Values found in a summary document. *)
Inductive value : Type :=
| VNone
| VBool (b : bool)
| VInt (z : Z)
| VStr (s : string).

(** The file system as the script sees it: one field per call it makes.
    [listdir] is [None] where [os.listdir] raises.  [open_error] is the
    error number of the [IOError] that [file] raises on a path, [None]
    where the file opens.  [load_error] is the exception that ends the
    reading of an opened summary file, if there is one: the [IOError] of
    a read that fails, the [YAMLError] of a text that cannot be parsed,
    the [TypeError] or [ValueError] that [summary.update] raises on a
    document that is not a mapping.  Where it is [None], [load_all] gives
    the documents that [yaml.safe_load_all] yields, all of them mappings. *)
Record FileSystem : Type := {
  listdir : string -> option (list string);
  isdir : string -> bool;
  path_exists : string -> bool;
  open_error : string -> option Z;
  load_error : string -> option exn;
  load_all : string -> list (gmap string value)
}.

Definition os_listdir (fs : FileSystem) (p : string) : result (list string) :=
  match listdir fs p with Some l => Ok l | None => Raise (OSError p) end.

(** Directory listings hold each name once, and a directory can be
    listed. *)
Definition listing_nodup (fs : FileSystem) : Prop :=
  forall p l, listdir fs p = Some l -> NoDup l.
Definition dirs_listable (fs : FileSystem) : Prop :=
  forall p, isdir fs p = true -> is_Some (listdir fs p).

(** A file system given by a table of directories; a path exists when it
    is a directory or an entry of [files].  The files open and hold
    mappings; opening a directory fails with [EISDIR] (21), opening
    anything else with [ENOENT] (2). *)
Definition fs_of_table (dirs : list (string * list string))
    (files : list (string * list (gmap string value))) : FileSystem :=
  {| listdir p := snd <$> List.find (fun d => String.eqb (fst d) p) dirs;
     isdir p := existsb (fun d => String.eqb (fst d) p) dirs;
     path_exists p := existsb (fun d => String.eqb (fst d) p) dirs
                      || existsb (fun d => String.eqb (fst d) p) files;
     open_error p :=
       if existsb (fun d => String.eqb (fst d) p) files then None
       else if existsb (fun d => String.eqb (fst d) p) dirs then Some 21%Z
       else Some 2%Z;
     load_error p := None;
     load_all p := default [] (snd <$> List.find (fun d => String.eqb (fst d) p) files) |}.

(** ** [main]: the combination generator *)

Module Suite.

(** A config snippet as the generator holds it: [(facet, name, path)]. *)
Definition snippet : Type := string * string * string.

(** Lines 102-106: the facets of a collection. *)
Definition facets (fs : FileSystem) (collection : string) : result (list string) :=
  names ← os_listdir fs collection;
  mret (List.filter
          (fun f => negb (Py.startswith f ".") && isdir fs (OsPath.join collection [f]))
          (Py.sorted names)).

(** Lines 108-112: the snippets of one facet. *)
Definition facet_snippets (fs : FileSystem) (collection f : string)
    : result (list snippet) :=
  names ← os_listdir fs (OsPath.join collection [f]);
  mret (fmap (fun name => (f, name, OsPath.join collection [f; name]))
          (List.filter
             (fun name => negb (Py.startswith name ".") && Py.endswith name ".yaml")
             (Py.sorted names))).

(** The generator expression of lines 107-114 is consumed whole by the
    starred call: every facet is listed, in order, before the first
    combination is produced. *)
Fixpoint facet_configs (fs : FileSystem) (collection : string) (fcts : list string)
    : result (list (list snippet)) :=
  match fcts with
  | [] => mret []
  | f :: rest =>
      pool ← facet_snippets fs collection f;
      pools ← facet_configs fs collection rest;
      mret (pool :: pools)
  end.

(** Line 115: the combinations of a collection, in the order of the loop. *)
Definition combinations (fs : FileSystem) (collection : string)
    : result (list (list snippet)) :=
  fcts ← facets fs collection;
  pools ← facet_configs fs collection fcts;
  mret (Py.product pools).

(** Lines 116-119. *)
Definition description (collection_name : string) (configs : list snippet) : string :=
  ("collection:" +:+ collection_name +:+ " ")
  +:+ Py.join " " ((fun '(facet, name, path) => facet +:+ ":" +:+ name) <$> configs).

(** *** The dispatcher

    [subprocess.check_call] runs the scheduler and raises when its exit
    status is not zero.  The invocations made so far are the state of a
    run; whether an invocation succeeds may depend on them. *)

(** What a run depends on: the suite directories, the path of the
    running script, and the exit status of the scheduler given the
    invocations made before and the command line. *)
Record Sys : Type := {
  fs : FileSystem;
  argv0 : string;
  exit_zero : list (list string) -> list string -> bool
}.

(** A step of a run: from the invocations made so far to those made after
    it, with a value or an exception. *)
Definition Run (A : Type) : Type :=
  list (list string) -> list (list string) * result A.

#[global] Instance run_ret : MRet Run := fun _ a h => (h, Ok a).
#[global] Instance run_bind : MBind Run := fun _ _ k m h =>
  match m h with
  | (h', Ok a) => k a h'
  | (h', Raise e) => (h', Raise e)
  end.

(** A step that invokes nothing. *)
Definition lift {A} (r : result A) : Run A := fun h => (h, r).

(** [subprocess.check_call(args=arg)] *)
Definition check_call (s : Sys) (arg : list string) : Run unit := fun h =>
  (h ++ [arg], if exit_zero s h arg then Ok () else Raise (CalledProcessError arg)).

(** A [for] loop: an exception in the body ends it. *)
Fixpoint for_each {A} (l : list A) (body : A -> Run unit) : Run unit :=
  match l with
  | [] => mret ()
  | x :: rest => _ ← body x; for_each rest body
  end.

(** The parsed command line of [main] (lines 33-70). *)
Record Args : Type := {
  verbose : bool;
  name : string;
  collections : list string;
  owner : option string;
  email : option string;
  timeout : option string;
  config : list string
}.

(** [['--flag', value]] when the argument is given and not empty. *)
Definition opt_arg (flag : string) (o : option string) : list string :=
  match o with
  | Some v => if Py.nonempty v then [flag; v] else []
  | None => []
  end.

(** Lines 80-87. *)
Definition base_arg (s : Sys) (a : Args) : list string :=
  [OsPath.join (OsPath.dirname (argv0 s)) ["teuthology-schedule"]; "--name"; name a]
  ++ (if verbose a then ["-v"] else [])
  ++ opt_arg "--owner" (owner a).

(** Lines 123-129: the command line of one combination. *)
Definition job_arg (s : Sys) (a : Args) (collection_name : string)
    (configs : list snippet) : list string :=
  base_arg s a
  ++ ["--description"; description collection_name configs; "--"]
  ++ config a
  ++ ((fun '(facet, name, path) => path) <$> configs).

(** Lines 134-139: the command line of the end marker. *)
Definition last_arg (s : Sys) (a : Args) : list string :=
  base_arg s a ++ ["--last-in-suite"]
  ++ opt_arg "--email" (email a) ++ opt_arg "--timeout" (timeout a).

Section Main.

(** [safepath.munge] lives in another module of the package. *)
Variable munge : string -> string.

(** Lines 94-98. *)
Definition named_collections (a : Args) : list (string * string) :=
  (fun collection => (collection, OsPath.basename (munge collection)))
    <$> collections a.

(** Line 100: the pairs in the order in which the loop takes them. *)
Definition processing_order (a : Args) : list (string * string) :=
  Py.sorted_tuples (named_collections a).

(** Lines 101-132: the body of the loop over the collections. *)
Definition schedule_collection (s : Sys) (a : Args) (c : string * string) : Run unit :=
  let '(collection, collection_name) := c in
  combos ← lift (combinations (fs s) collection);
  for_each combos (fun configs => check_call s (job_arg s a collection_name configs)).

(** Lines 89-142: the check of the collections, the loop over them in
    sorted order, the end marker. *)
Definition main (s : Sys) (a : Args) : Run unit :=
  _ ← (if forallb (isdir (fs s)) (collections a)
       then mret () else lift (Raise (SystemExit 1)));
  _ ← for_each (processing_order a) (schedule_collection s a);
  check_call s (last_arg s a).

End Main.

End Suite.

(** ** The path sanitizer *)

Module SafePath.

Fixpoint split_go (cur p : string) : list string :=
  match p with
  | "" => [String.rev cur]
  | String c r =>
      if Ascii.eqb c OsPath.slash then String.rev cur :: split_go "" r
      else split_go (String c cur) r
  end.

(** [path.split('/')] *)
Definition split (p : string) : list string := split_go "" p.

(** A leading dot becomes an underscore. *)
Definition undot (seg : string) : string :=
  match seg with
  | String "." r => String "_" r
  | _ => seg
  end.

(** Modelled from the spec: [safepath.munge] is not among the sources.  The
    sanitizer collapses redundant separators, drops the segments that
    stand for the current directory, and makes a segment that starts with
    a dot (so also the parent directory) harmless by replacing that dot
    with an underscore.  The spec has the sanitizer signal an error on an
    empty path; this model is total and gives a single underscore for a
    path with no segment left, a case that no property below relies on:
    the properties of [main] hold for any sanitizer, and the concrete runs
    pass it paths with segments only. *)
Definition munge (path : string) : string :=
  let segments :=
    List.filter (fun s => Py.nonempty s && negb (String.eqb s ".")) (split path) in
  let segments := undot <$> segments in
  let segments := match segments with [] => ["_"] | _ => segments end in
  Py.join "/" segments.

End SafePath.

(** ** [results]: polling, aggregation and the report *)

Module Results.

(** The parsed command line of [results] (lines 187-213). *)
Record Args : Type := {
  email : option string;
  timeout : Z;
  archive_dir : string;
  name : string;
  verbose : bool
}.

(** The entries of [args.teuthology_config] that [results] reads; they are
    set by [teuthology.read_config]. *)
Record Config : Type := {
  coverage_output_dir : string;
  coverage_html_dir : string;
  coverage_tools_dir : string;
  results_sending_email : string
}.

(** The archive is written by the jobs while [results] waits: the world
    gives the file system at each time of the clock.  A time is a number
    of whole seconds: the seconds that have passed since the poller
    started are rounded up, so that more than [timeout] seconds have
    passed exactly when the time is more than [timeout] after [start].
    The clock does not go back, and a sleep lasts ten seconds or more:
    [lag t] is the time that passes, beyond the ten seconds of a sleep if
    there is one, between a turn of the polling loop at the time [t] and
    the next.  Within a turn the look at the summary and the reading of
    the clock count as one moment. *)
Record World : Type := {
  fs_at : Z -> FileSystem;
  argv0 : string;
  start : Z;
  lag : Z -> N
}.

(** The message handed to the mail relay (lines 322-325). *)
Record message : Type := {
  msg_subject : string;
  msg_from : string;
  msg_to : string;
  msg_body : string
}.

(** What [results] does to the outside, in order. *)
Inductive event : Type :=
| Sleep (seconds : Z)
| Popen (argv : list string)
| Sendmail (m : message).

(** The path of the summary of the job [j]. *)
Definition summary_fn (a : Args) (j : string) : string :=
  OsPath.join (archive_dir a) [j; "summary.yaml"].

(** Lines 225-229. *)
Definition initial_running (fs : FileSystem) (a : Args) : result (list string) :=
  names ← os_listdir fs (archive_dir a);
  mret (List.filter
          (fun f => negb (Py.startswith f ".")
                    && negb (path_exists fs (summary_fn a f)))
          (Py.sorted names)).

(** The state of the polling loop: the jobs still held, the clock, the
    number of sleeps so far. *)
Record poll_state : Type := {
  running_tests : list string;
  now : Z;
  sleeps : nat
}.

(** Lines 231-241.  One unit of fuel is one turn of the [while] loop;
    [None] means the fuel ran out before the loop ended. *)
Fixpoint wait_loop (fuel : nat) (w : World) (a : Args) (starttime : Z)
    (st : poll_state) : option poll_state :=
  match running_tests st with
  | [] => Some st
  | newest :: _ =>
      if negb (0 <? timeout a)%Z then Some st
      else
        match fuel with
        | O => None
        | S fuel' =>
            let j := List.last (running_tests st) newest in
            if path_exists (fs_at w (now st)) (summary_fn a j)
            then wait_loop fuel' w a starttime
                   {| running_tests := removelast (running_tests st);
                      now := (now st + Z.of_N (lag w (now st)))%Z;
                      sleeps := sleeps st |}
            else if (timeout a <? now st - starttime)%Z then Some st
            else wait_loop fuel' w a starttime
                   {| running_tests := running_tests st;
                      now := (now st + 10 + Z.of_N (lag w (now st)))%Z;
                      sleeps := S (sleeps st) |}
        end
  end.

(** Lines 225-241: the poller, from the first listing to the end of the
    loop. *)
Definition poll (fuel : nat) (w : World) (a : Args) : option (result poll_state) :=
  match initial_running (fs_at w (start w)) a with
  | Raise e => Some (Raise e)
  | Ok running =>
      Ok <$> wait_loop fuel w a (start w)
               {| running_tests := running; now := start w; sleeps := 0 |}
  end.

(** Lines 243-255. *)
Definition coverage_argv (w : World) (cfg : Config) (a : Args) : list string :=
  [OsPath.join (OsPath.dirname (argv0 w)) ["teuthology-coverage"];
   "-v";
   "-o"; OsPath.join (coverage_output_dir cfg) [name a];
   "--html-output"; OsPath.join (coverage_html_dir cfg) [name a];
   "--cov-tools-dir"; coverage_tools_dir cfg;
   archive_dir a].

(** The lists that the aggregation loop fills (lines 257-261). *)
Record tally : Type := {
  descriptions : list string;
  failures : list string;
  num_failures : nat;
  unfinished : list string;
  passed : list string
}.

Definition empty_tally : tally :=
  {| descriptions := []; failures := []; num_failures := 0;
     unfinished := []; passed := [] |}.

(** Lines 270-274: later documents override earlier ones. *)
Definition merge_docs (docs : list (gmap string value)) : gmap string value :=
  foldl (fun summary new => new ∪ summary) ∅ docs.

(** Lines 270-274, and lines 163-168 of [ls]: the file is opened and its
    documents are merged into one dictionary. *)
Definition read_summary (fs : FileSystem) (p : string) : result (gmap string value) :=
  match open_error fs p with
  | Some errno => Raise (IOError errno)
  | None =>
      match load_error fs p with
      | Some e => Raise e
      | None => Ok (merge_docs (load_all fs p))
      end
  end.

(** [summary[key]] *)
Definition getitem (summary : gmap string value) (key : string) : result value :=
  match summary !! key with
  | Some v => Ok v
  | None => Raise (KeyError key)
  end.

(** What [format] writes for a value. *)
Definition py_str (v : value) : string :=
  match v with
  | VNone => "None"
  | VBool true => "True"
  | VBool false => "False"
  | VInt z => pretty z
  | VStr s => s
  end.

(** Truth value of a value. *)
Definition py_bool (v : value) : bool :=
  match v with
  | VNone => false
  | VBool b => b
  | VInt z => negb (z =? 0)%Z
  | VStr s => Py.nonempty s
  end.

(** The four updates that the loop makes. *)
Definition add_unfinished (j : string) (t : tally) : tally :=
  {| descriptions := descriptions t; failures := failures t;
     num_failures := num_failures t;
     unfinished := unfinished t ++ [j]; passed := passed t |}.

Definition add_description (desc : string) (t : tally) : tally :=
  {| descriptions := descriptions t ++ [desc]; failures := failures t;
     num_failures := num_failures t;
     unfinished := unfinished t; passed := passed t |}.

Definition add_passed (desc : string) (t : tally) : tally :=
  {| descriptions := descriptions t; failures := failures t;
     num_failures := num_failures t;
     unfinished := unfinished t; passed := passed t ++ [desc] |}.

Definition add_failure (line : string) (count : nat) (t : tally) : tally :=
  {| descriptions := descriptions t; failures := failures t ++ [line];
     num_failures := num_failures t + count;
     unfinished := unfinished t; passed := passed t |}.

(** Lines 264-288: the body of the aggregation loop for the entry [j]. *)
Definition classify (fs : FileSystem) (a : Args) (t : tally) (j : string)
    : result tally :=
  if Py.startswith j "." then mret t
  else if negb (path_exists fs (summary_fn a j)) then mret (add_unfinished j t)
  else
    summary ← read_summary fs (summary_fn a j);
    d ← getitem summary "description";
    let desc := j +:+ ": " +:+ py_str d in
    let t := add_description desc t in
    ok ← getitem summary "success";
    if py_bool ok then mret (add_passed desc t)
    else
      let t := add_failure desc 1 t in
      match summary !! "failure_reason" with
      | Some reason => mret (add_failure ("    " +:+ py_str reason) 0 t)
      | None => mret t
      end.

Fixpoint classify_all (fs : FileSystem) (a : Args) (t : tally) (jobs : list string)
    : result tally :=
  match jobs with
  | [] => mret t
  | j :: rest => t' ← classify fs a t j; classify_all fs a t' rest
  end.

(** Lines 257-288. *)
Definition aggregate (fs : FileSystem) (a : Args) : result tally :=
  all_jobs ← os_listdir fs (archive_dir a);
  classify_all fs a empty_tally (Py.sorted all_jobs).

Definition nl : string := String (ascii_of_nat 10) "".

Definition success_subject (a : Args) : string :=
  "All tests passed in " +:+ name a +:+ "!".

Definition counts_subject (a : Args) (t : tally) : string :=
  pretty (num_failures t) +:+ " failed, "
  +:+ pretty (length (unfinished t)) +:+ " possibly hung, and "
  +:+ pretty (length (passed t)) +:+ " passed tests in " +:+ name a.

Definition counts_body (a : Args) (t : tally) : string :=
  nl +:+ "The following tests failed:" +:+ nl +:+ nl
  +:+ Py.join nl (failures t) +:+ nl +:+ nl
  +:+ "These tests may be hung (did not finish in " +:+ pretty (timeout a)
  +:+ " seconds after the last test in the suite):" +:+ nl
  +:+ Py.join nl (unfinished t) +:+ nl +:+ nl
  +:+ "These tests passed:" +:+ nl
  +:+ Py.join nl (passed t).

Definition nonnil {A} (l : list A) : bool :=
  match l with [] => false | _ => true end.

(** Lines 293-318: subject and body. *)
Definition compose (a : Args) (t : tally) : string * string :=
  if nonnil (failures t) || nonnil (unfinished t)
  then (counts_subject a t, counts_body a t)
  else (success_subject a, Py.join nl (descriptions t)).

(** Lines 290-329: nothing is sent without an address. *)
Definition report (cfg : Config) (a : Args) (t : tally) : list event :=
  match email a with
  | Some to =>
      if Py.nonempty to then
        let '(subject, body) := compose a t in
        [Sendmail {| msg_subject := subject;
                     msg_from := results_sending_email cfg;
                     msg_to := to; msg_body := body |}]
      else []
  | None => []
  end.

(** [results], with the fuel of the polling loop: the events in order and
    how the call ends. *)
Definition results (fuel : nat) (w : World) (cfg : Config) (a : Args)
    : option (list event * result unit) :=
  match poll fuel w a with
  | None => None
  | Some (Raise e) => Some ([], Raise e)
  | Some (Ok st) =>
      let waited := replicate (sleeps st) (Sleep 10) in
      let launched := waited ++ [Popen (coverage_argv w cfg a)] in
      match aggregate (fs_at w (now st)) a with
      | Raise e => Some (launched, Raise e)
      | Ok t => Some (launched ++ report cfg a t, Ok ())
      end
  end.

End Results.

(** ** The vocabulary of the specification *)

Module Spec.

(** The Cartesian product as nested loops over the pools in their order:
    the loop over the first pool is the outermost, so the choice from the
    last pool varies fastest. *)
Fixpoint nested_loops {A} (pools : list (list A)) : list (list A) :=
  match pools with
  | [] => [[]]
  | pool :: rest => x ← pool; c ← nested_loops rest; [x :: c]
  end.

(** The product of the numbers [k1 .. kn]. *)
Definition product_of (ks : list nat) : nat := foldr Nat.mul 1 ks.

(** A non-hidden name with the config extension. *)
Definition is_snippet_name (name : string) : bool :=
  negb (Py.startswith name ".") && Py.endswith name ".yaml".

(** The number of config snippets among the entries of a facet. *)
Definition snippet_count (entries : list string) : nat :=
  length (List.filter is_snippet_name entries).

(** Whether a name contains the character that separates the pairs of a
    description. *)
Fixpoint has_space (s : string) : bool :=
  match s with
  | "" => false
  | String c r => Ascii.eqb c " " || has_space r
  end.

(** The snippets of the facet [f] of [collection] whose directory lists
    [entries]: in ascending order of their names. *)
Definition pool_of (collection f : string) (entries : list string)
    : list Suite.snippet :=
  (fun name => (f, name, OsPath.join collection [f; name]))
    <$> List.filter is_snippet_name (Py.sorted entries).

(** The entries of the facets, facet by facet. *)
Definition facets_list (fs : FileSystem) (collection : string)
    (fcts : list string) (entries : list (list string)) : Prop :=
  Forall2 (fun f es => listdir fs (OsPath.join collection [f]) = Some es) fcts entries.

(** A facet of the collection: an entry that is not hidden and is a
    directory. *)
Definition is_facet (fs : FileSystem) (collection f : string) : Prop :=
  Py.startswith f "." = false /\ isdir fs (OsPath.join collection [f]) = true.

#[global] Instance is_facet_dec fs collection f : Decision (is_facet fs collection f).
Proof. unfold is_facet. apply _. Defined.

(** The facets [F1 .. Fn] of a collection whose directory lists [names]:
    the facets among the names, each as often as it is listed, in
    ascending order. *)
Definition facets_of (fs : FileSystem) (collection : string)
    (names fcts : list string) : Prop :=
  StronglySorted String.le fcts /\ fcts ≡ₚ filter (is_facet fs collection) names.

(** The config snippets among the entries of a facet. *)
Definition snippets_among (entries : list string) : list string :=
  filter (fun name => is_snippet_name name = true) entries.

(** The number of combinations of a collection: the product
    [k1 * ... * kn] of the numbers of config snippets of its facets. *)
Definition has_count (fs : FileSystem) (collection : string) (n : nat) : Prop :=
  exists names fcts entries,
    listdir fs collection = Some names
    /\ facets_of fs collection names fcts
    /\ facets_list fs collection fcts entries
    /\ n = product_of (snippet_count <$> entries).

(** No config snippet among the entries has a space in its name. *)
Definition space_free (entries : list (list string)) : Prop :=
  forall es name, es ∈ entries -> name ∈ es ->
    is_snippet_name name = true -> has_space name = false.

(** Every snippet of the pool of a facet carries that facet and a name
    without a space. *)
Definition tagged (collection f : string) (pool : list Suite.snippet) : Prop :=
  forall x, x ∈ pool ->
    exists name, x = (f, name, OsPath.join collection [f; name])
      /\ has_space name = false.

(** Strict order of strings. *)
Definition str_lt (a b : string) : Prop := String.le a b /\ a <> b.

(** The first names that differ decide. *)
Inductive lex_lt : list string -> list string -> Prop :=
| lex_lt_head a b l1 l2 : str_lt a b -> lex_lt (a :: l1) (b :: l2)
| lex_lt_tail a l1 l2 : lex_lt l1 l2 -> lex_lt (a :: l1) (a :: l2).

(** The snippet names of a combination, facet by facet. *)
Definition names (c : list Suite.snippet) : list string :=
  (fun '(facet, name, path) => name) <$> c.

(** Snippets compared by their names. *)
Definition name_lt (x y : Suite.snippet) : Prop := str_lt x.1.2 y.1.2.

(** The number of combinations of a collection. *)
Definition combo_count (fs : FileSystem) (collection : string) : nat :=
  match Suite.combinations fs collection with
  | Ok combos => length combos
  | Raise _ => 0
  end.

(** The combinations of a collection, none where listing fails. *)
Definition combos_of (fs : FileSystem) (collection : string)
    : list (list Suite.snippet) :=
  match Suite.combinations fs collection with
  | Ok combos => combos
  | Raise _ => []
  end.

(** The command lines of all combinations of a run, in the order of the
    loops. *)
Definition job_args (munge : string -> string) (s : Suite.Sys) (a : Suite.Args)
    : list (list string) :=
  c ← Suite.processing_order munge a;
  Suite.job_arg s a c.2 <$> combos_of (Suite.fs s) c.1.

(** Two file systems that differ at most in the order in which their
    directories are listed. *)
Definition same_entries (fs fs' : FileSystem) : Prop :=
  (forall p, isdir fs p = isdir fs' p)
  /\ (forall p, match listdir fs p, listdir fs' p with
                | Some l, Some l' => l ≡ₚ l'
                | None, None => True
                | _, _ => False
                end).

(** *** The archive *)

(** The entries of the archive that the aggregation looks at, in its
    order. *)
Definition shown (jobs : list string) : list string :=
  List.filter (fun j => negb (Py.startswith j ".")) jobs.

(** The same for a directory that lists [names] in any order. *)
Definition visible (names : list string) : list string := shown (Py.sorted names).

Section Archive.
Variable fs : FileSystem.
Variable a : Results.Args.

(** The job has a summary. *)
Definition finished (j : string) : bool := path_exists fs (Results.summary_fn a j).

(** The merged summary of a job. *)
Definition summary_of (j : string) : gmap string value :=
  Results.merge_docs (load_all fs (Results.summary_fn a j)).

(** The summary says that the job passed. *)
Definition succeeded (j : string) : bool :=
  match summary_of j !! "success" with
  | Some v => Results.py_bool v
  | None => false
  end.

(** The line of a job in the list of descriptions. *)
Definition line_of (j : string) : string :=
  j +:+ ": " +:+ match summary_of j !! "description" with
                 | Some d => Results.py_str d
                 | None => ""
                 end.

(** The indented line under a failed job that gives a reason. *)
Definition reason_lines (j : string) : list string :=
  match summary_of j !! "failure_reason" with
  | Some reason => ["    " +:+ Results.py_str reason]
  | None => []
  end.

(** The summary gives a reason for the failure. *)
Definition has_reason (j : string) : bool :=
  match summary_of j !! "failure_reason" with Some _ => true | None => false end.

(** The three classes of jobs, each in the order of [jobs]. *)
Definition finished_jobs (jobs : list string) : list string :=
  List.filter finished jobs.

Definition unfinished_jobs (jobs : list string) : list string :=
  List.filter (fun j => negb (finished j)) jobs.

Definition passed_jobs (jobs : list string) : list string :=
  List.filter succeeded (finished_jobs jobs).

Definition failed_jobs (jobs : list string) : list string :=
  List.filter (fun j => negb (succeeded j)) (finished_jobs jobs).

(** A summary that lacks a required field. *)
Definition malformed (j : string) : Prop :=
  summary_of j !! "description" = None \/ summary_of j !! "success" = None.

(** The summary of the job opens and its documents load. *)
Definition readable (j : string) : Prop :=
  open_error fs (Results.summary_fn a j) = None
  /\ load_error fs (Results.summary_fn a j) = None.

End Archive.

(** Modelled from the spec: the scheduler command is not among the
    sources.  These are the options of its command line that take a
    value: suite name, owner, description, email and timeout. *)
Definition takes_value (opt : string) : bool :=
  bool_decide (opt ∈ ["--name"; "--owner"; "--description"; "--email"; "--timeout"]).

(** Modelled from the spec: the scheduler reads its arguments from the
    left, options first, with the value of an option that takes one, up
    to the separator that starts the positional paths; the result tells
    whether the last-in-suite flag is among the options. *)
Fixpoint reads_last_in_suite (args : list string) : bool :=
  match args with
  | [] => false
  | opt :: rest =>
      if String.eqb opt "--" then false
      else if String.eqb opt "--last-in-suite" then true
      else if takes_value opt then
        match rest with
        | [] => false
        | _ :: rest' => reads_last_in_suite rest'
        end
      else reads_last_in_suite rest
  end.

(** Modelled from the spec: an invocation carries the flag when the
    arguments after the program name have it. *)
Definition carries_last_in_suite (argv : list string) : bool :=
  match argv with
  | [] => false
  | _ :: args => reads_last_in_suite args
  end.

(** Every invocation of a run succeeded. *)
Definition all_succeed (s : Suite.Sys) (tr : list (list string)) : Prop :=
  forall h arg rest, tr = h ++ arg :: rest -> Suite.exit_zero s h arg = true.

End Spec.

(** ** [ls]: listing the results *)

Module Ls.

(** The parsed command line of [ls] (lines 145-157). *)
Record Args : Type := {
  archive_dir : string;
  verbose : bool
}.

(** [errno.ENOENT] *)
Definition ENOENT : Z := 2%Z.

(** The archive as [ls] sees it: the file system at the time of the
    call. *)
Record World : Type := {
  fs : FileSystem
}.

(** The error number of the [IOError] that opening a path raises, [None]
    where the file opens. *)
Definition open_errno (w : World) (p : string) : option Z := open_error (fs w) p.

(** Line 165: the path is built by formatting, not by [os.path.join]. *)
Definition summary_path (a : Args) (j : string) : string :=
  archive_dir a +:+ "/" +:+ j +:+ "/summary.yaml".

(** [summary.get(key, '-')], as [format] writes it. *)
Definition get_or_dash (summary : gmap string value) (key : string) : string :=
  match summary !! key with
  | Some v => Results.py_str v
  | None => "-"
  end.

(** Lines 160-183: the body of the loop for the entry [j]: the lines it
    prints, and the exception that ends it if there is one. *)
Definition list_job (w : World) (a : Args) (j : string)
    : list string * option exn :=
  if Py.startswith j "." then ([], None)
  else
    match Results.read_summary (fs w) (summary_path a j) with
    | Raise (IOError errno) =>
        if (errno =? ENOENT)%Z then ([j +:+ " (no summary.yaml)"], None)
        else ([], Some (IOError errno))
    | Raise e => ([], Some e)
    | Ok summary =>
        let owner := get_or_dash summary "owner" in
        let desc := get_or_dash summary "description" in
        match summary !! "success" with
        | None => ([], Some (KeyError "success"))
        | Some ok =>
            let success := if Results.py_bool ok then "pass" else "FAIL" in
            ([j +:+ " " +:+ success +:+ " " +:+ owner +:+ " " +:+ desc]
             ++ (if verbose a
                 then match summary !! "failure_reason" with
                      | Some reason => ["    " +:+ Results.py_str reason]
                      | None => []
                      end
                 else []),
             None)
        end
    end.

(** Line 159: the loop; what was printed before an exception stays
    printed. *)
Fixpoint list_jobs (w : World) (a : Args) (jobs : list string)
    : list string * option exn :=
  match jobs with
  | [] => ([], None)
  | j :: rest =>
      match list_job w a j with
      | (lines, Some e) => (lines, Some e)
      | (lines, None) =>
          let '(more, r) := list_jobs w a rest in (lines ++ more, r)
      end
  end.

(** Lines 144-183: the printed lines and how the call ends. *)
Definition ls (w : World) (a : Args) : list string * option exn :=
  match listdir (fs w) (archive_dir a) with
  | None => ([], Some (OSError (archive_dir a)))
  | Some names => list_jobs w a (Py.sorted names)
  end.

End Ls.

(** ** The vocabulary of the further properties *)

Module More.

(** The invocations that a run is set to make: those of the combinations,
    then the end marker. *)
Definition planned (munge : string -> string) (s : Suite.Sys) (a : Suite.Args)
    : list (list string) :=
  Spec.job_args munge s a ++ [Suite.last_arg s a].

(** Two command lines that differ at most in the order of the
    collections. *)
Definition same_request (a a' : Suite.Args) : Prop :=
  Suite.verbose a' = Suite.verbose a /\ Suite.name a' = Suite.name a
  /\ Suite.owner a' = Suite.owner a /\ Suite.email a' = Suite.email a
  /\ Suite.timeout a' = Suite.timeout a /\ Suite.config a' = Suite.config a
  /\ Suite.collections a' ≡ₚ Suite.collections a.

(** The summary of the job exists at a time of the given span. *)
Definition seen_within (w : Results.World) (a : Results.Args) (from to : Z)
    (j : string) : Prop :=
  exists t, (from <= t <= to)%Z
    /\ path_exists (Results.fs_at w t) (Results.summary_fn a j) = true.

(** The turns of the polling loop that always suffice. *)
Definition enough_fuel (a : Results.Args) (running : nat) : nat :=
  running + Z.to_nat (Results.timeout a / 10 + 1).

(** The summary of the job opens for [ls]. *)
Definition opens (w : Ls.World) (a : Ls.Args) (j : string) : bool :=
  match Ls.open_errno w (Ls.summary_path a j) with
  | None => true
  | Some _ => false
  end.

(** The merged summary that [ls] reads. *)
Definition ls_summary (w : Ls.World) (a : Ls.Args) (j : string) : gmap string value :=
  Results.merge_docs (load_all (Ls.fs w) (Ls.summary_path a j)).

(** The summary of the job is missing for [ls]: opening it, or reading
    it, fails for want of the file. *)
Definition missing (w : Ls.World) (a : Ls.Args) (j : string) : Prop :=
  Ls.open_errno w (Ls.summary_path a j) = Some Ls.ENOENT
  \/ (Ls.open_errno w (Ls.summary_path a j) = None
      /\ load_error (Ls.fs w) (Ls.summary_path a j) = Some (IOError Ls.ENOENT)).

(** The summary of the job opens and its documents load. *)
Definition loads (w : Ls.World) (a : Ls.Args) (j : string) : Prop :=
  Ls.open_errno w (Ls.summary_path a j) = None
  /\ load_error (Ls.fs w) (Ls.summary_path a j) = None.

(** An entry that [ls] lists: its summary is missing, or it loads and has
    the key [success]. *)
Definition listed (w : Ls.World) (a : Ls.Args) (j : string) : Prop :=
  missing w a j \/ (loads w a j /\ is_Some (ls_summary w a j !! "success")).

(** Opening or reading the summary of the job fails with [e], and not for
    want of the file. *)
Definition fails_with (w : Ls.World) (a : Ls.Args) (j : string) (e : exn) : Prop :=
  e <> IOError Ls.ENOENT
  /\ ((exists errno, Ls.open_errno w (Ls.summary_path a j) = Some errno
                     /\ e = IOError errno)
      \/ (Ls.open_errno w (Ls.summary_path a j) = None
          /\ load_error (Ls.fs w) (Ls.summary_path a j) = Some e)).

(** Opening the summary of an entry that has none fails for want of the
    file. *)
Definition absent_enoent (fs : FileSystem) (a : Results.Args) (names : list string)
    : Prop :=
  forall j, j ∈ names ->
    path_exists fs (Results.summary_fn a j) = false ->
    open_error fs (Results.summary_fn a j) = Some Ls.ENOENT.

(** A directory given without a final separator, and an entry name as
    directories hold them. *)
Definition plain_dir (d : string) : Prop :=
  Py.nonempty d = true /\ Py.endswith d "/" = false.
Definition plain_name (j : string) : Prop :=
  Py.nonempty j = true /\ Py.startswith j "/" = false /\ Py.endswith j "/" = false.

End More.

(** ** A small suite to run the definitions on *)

Module Demo.

(** Three collections: [basic] with two facets, a hidden directory, a
    plain file, and among the entries of its facets a swap file, a hidden
    snippet and a text file; [empty] without facets; [hollow] with a facet
    that holds no snippet. *)
Definition basic_fs : FileSystem :=
  fs_of_table
    [("suites/basic", ["tasks"; ".git"; "clusters"; "README"]);
     ("suites/basic/.git", ["HEAD"]);
     ("suites/basic/clusters",
        ["three.yaml"; "fixed.yaml"; ".fixed.yaml.swp"; ".draft.yaml"]);
     ("suites/basic/tasks", ["smoke.yaml"; "notes.txt"]);
     ("suites/empty", []);
     ("suites/hollow", ["clusters"; "tasks"]);
     ("suites/hollow/clusters", ["fixed.yaml"]);
     ("suites/hollow/tasks", [])]
    [].

(** The collection [basic] with two cluster snippets and one task
    snippet, listed out of order. *)
Definition scenario_fs : FileSystem :=
  fs_of_table
    [("basic", ["tasks"; "clusters"]);
     ("basic/clusters", ["three.yaml"; "fixed.yaml"]);
     ("basic/tasks", ["smoke.yaml"])]
    [].

(** A collection whose snippet names contain spaces. *)
Definition odd_fs : FileSystem :=
  fs_of_table
    [("suites/odd", ["a"; "b"]);
     ("suites/odd/a", ["x.yaml"; "x.yaml b:y.yaml"]);
     ("suites/odd/b", ["y.yaml"; "y.yaml b:y.yaml"])]
    [].

(** The file system of [basic_fs] with one more collection, [locked]:
    its facet [clusters] holds no snippet and its facet [tasks] is a
    directory that cannot be listed. *)
Definition locked_fs : FileSystem :=
  let table :=
    fs_of_table
      [("suites/basic", ["tasks"; ".git"; "clusters"; "README"]);
       ("suites/basic/.git", ["HEAD"]);
       ("suites/basic/clusters",
          ["three.yaml"; "fixed.yaml"; ".fixed.yaml.swp"; ".draft.yaml"]);
       ("suites/basic/tasks", ["smoke.yaml"; "notes.txt"]);
       ("suites/locked", ["clusters"; "tasks"]);
       ("suites/locked/clusters", []);
       ("suites/locked/tasks", [])]
      [] in
  {| listdir p := if String.eqb p "suites/locked/tasks" then None else listdir table p;
     isdir := isdir table;
     path_exists := path_exists table;
     open_error := open_error table;
     load_error := load_error table;
     load_all := load_all table |}.

(** A scheduler that always succeeds. *)
Definition sys : Suite.Sys :=
  {| Suite.fs := basic_fs;
     Suite.argv0 := "/usr/bin/teuthology-suite";
     Suite.exit_zero := fun _ _ => true |}.

Definition locked_sys : Suite.Sys :=
  {| Suite.fs := locked_fs;
     Suite.argv0 := "/usr/bin/teuthology-suite";
     Suite.exit_zero := fun _ _ => true |}.

Definition args (cs : list string) : Suite.Args :=
  {| Suite.verbose := false; Suite.name := "nightly"; Suite.collections := cs;
     Suite.owner := None; Suite.email := Some "qa@example.com";
     Suite.timeout := None; Suite.config := ["extra.yaml"] |}.

End Demo.

Module DemoArchive.

Definition doc (l : list (string * value)) : gmap string value := list_to_map l.

(** Job [1] passed (its second document overrides the first), job [2]
    has no summary, jobs [3] and [4] failed, one of them with a reason. *)
Definition archive : FileSystem :=
  fs_of_table
    [("/a", ["3"; "1"; ".lock"; "2"; "4"])]
    [("/a/1/summary.yaml",
        [doc [("description", VStr "collection:basic clusters:fixed.yaml");
              ("success", VBool false)];
         doc [("success", VBool true); ("owner", VStr "qa")]]);
     ("/a/3/summary.yaml",
        [doc [("description", VStr "collection:basic clusters:three.yaml");
              ("success", VBool false); ("failure_reason", VStr "timeout")]]);
     ("/a/4/summary.yaml",
        [doc [("description", VStr "collection:basic clusters:four.yaml");
              ("success", VBool false)]])].

(** The archive of three jobs: one passed, one without summary, one
    failed with the reason [timeout]. *)
Definition three_jobs : FileSystem :=
  fs_of_table
    [("/a", ["1"; "2"; "3"])]
    [("/a/1/summary.yaml", [doc [("description", VStr "one"); ("success", VBool true)]]);
     ("/a/3/summary.yaml",
        [doc [("description", VStr "three"); ("success", VBool false);
              ("failure_reason", VStr "timeout")]])].

(** An archive in which the summary of job [5] has no description. *)
Definition broken : FileSystem :=
  fs_of_table
    [("/a", ["5"; "1"])]
    [("/a/1/summary.yaml",
        [doc [("description", VStr "collection:basic clusters:fixed.yaml");
              ("success", VBool true)]]);
     ("/a/5/summary.yaml", [doc [("success", VBool true)]])].

(** The archive [three_jobs] in which the summary of job [1] exists but
    cannot be opened (errno 13, permission denied), and the one in which
    the summary of job [3] holds a document that is not a mapping. *)
Definition denied : FileSystem :=
  {| listdir := listdir three_jobs;
     isdir := isdir three_jobs;
     path_exists := path_exists three_jobs;
     open_error p :=
       if String.eqb p "/a/1/summary.yaml" then Some 13%Z else open_error three_jobs p;
     load_error := load_error three_jobs;
     load_all := load_all three_jobs |}.

Definition not_a_mapping : FileSystem :=
  {| listdir := listdir three_jobs;
     isdir := isdir three_jobs;
     path_exists := path_exists three_jobs;
     open_error := open_error three_jobs;
     load_error p :=
       if String.eqb p "/a/3/summary.yaml" then Some TypeError else None;
     load_all := load_all three_jobs |}.

Definition broken_world : Results.World :=
  {| Results.fs_at := fun _ => broken; Results.argv0 := "/usr/bin/teuthology-results";
     Results.start := 1000%Z; Results.lag := fun _ => 0%N |}.

Definition world : Results.World :=
  {| Results.fs_at := fun _ => archive; Results.argv0 := "/usr/bin/teuthology-results";
     Results.start := 1000%Z; Results.lag := fun _ => 0%N |}.

Definition cfg : Results.Config :=
  {| Results.coverage_output_dir := "/cov"; Results.coverage_html_dir := "/html";
     Results.coverage_tools_dir := "/tools";
     Results.results_sending_email := "teuthology@example.com" |}.

Definition args (t : Z) : Results.Args :=
  {| Results.email := Some "qa@example.com"; Results.timeout := t;
     Results.archive_dir := "/a"; Results.name := "nightly";
     Results.verbose := false |}.

End DemoArchive.


Module DemoLs.

(** The archive of [DemoArchive.archive] as [ls] opens it: the summary of
    job [2] does not exist. *)
Definition world : Ls.World := {| Ls.fs := DemoArchive.archive |}.

Definition args (v : bool) : Ls.Args :=
  {| Ls.archive_dir := "/a"; Ls.verbose := v |}.

(** The archive in which a summary has no description, and one in which a
    summary has no [success]. *)
Definition no_description : Ls.World := {| Ls.fs := DemoArchive.broken |}.

Definition no_success_fs : FileSystem :=
  fs_of_table
    [("/a", ["7"; "6"; "8"])]
    [("/a/6/summary.yaml",
        [DemoArchive.doc [("description", VStr "six"); ("success", VBool true)]]);
     ("/a/7/summary.yaml", [DemoArchive.doc [("description", VStr "seven")]]);
     ("/a/8/summary.yaml",
        [DemoArchive.doc [("description", VStr "eight"); ("success", VBool true)]])].

Definition no_success : Ls.World := {| Ls.fs := no_success_fs |}.

End DemoLs.

Module DemoRun.

(** A scheduler that accepts one invocation and refuses the next. *)
Definition flaky : Suite.Sys :=
  {| Suite.fs := Demo.basic_fs;
     Suite.argv0 := "/usr/bin/teuthology-suite";
     Suite.exit_zero := fun h _ => Nat.ltb (length h) 1 |}.

(** An archive whose jobs finish while the poller waits: job [1] has its
    summary from the time 1015 on, job [2] from 1005 on, any other never. *)
Definition growing (names : list string) (t : Z) : FileSystem :=
  fs_of_table
    [("/a", names)]
    ((if (1015 <=? t)%Z then [("/a/1/summary.yaml", [])] else [])
     ++ (if (1005 <=? t)%Z then [("/a/2/summary.yaml", [])] else [])).

Definition growing_world (names : list string) : Results.World :=
  {| Results.fs_at := growing names; Results.argv0 := "/usr/bin/teuthology-results";
     Results.start := 1000%Z; Results.lag := fun _ => 0%N |}.

(** The same archive under a clock that every turn of the loop finds a
    second later than the code asks for. *)
Definition late_world (names : list string) : Results.World :=
  {| Results.fs_at := growing names; Results.argv0 := "/usr/bin/teuthology-results";
     Results.start := 1000%Z; Results.lag := fun _ => 1%N |}.

(** An archive in which every job passed. *)
Definition all_passed : FileSystem :=
  fs_of_table
    [("/a", ["11"; "10"; ".hidden"])]
    [("/a/10/summary.yaml",
        [DemoArchive.doc [("description", VStr "ten"); ("success", VBool true)]]);
     ("/a/11/summary.yaml",
        [DemoArchive.doc [("description", VStr "eleven"); ("success", VBool true);
                          ("failure_reason", VStr "none")]])].

End DemoRun.

(** * Properties *)

(** ** The primitives on concrete inputs *)

Example startswith_hidden : Py.startswith ".git" "." = true.
Proof. reflexivity. Qed.
Example endswith_yaml : Py.endswith "fixed.yaml" ".yaml" = true.
Proof. reflexivity. Qed.
Example endswith_short : Py.endswith "aml" ".yaml" = false.
Proof. reflexivity. Qed.
Example join_plain : OsPath.join "suites/basic" ["clusters"; "fixed.yaml"]
  = "suites/basic/clusters/fixed.yaml".
Proof. reflexivity. Qed.
Example join_trailing : OsPath.join "suites/" ["x"] = "suites/x".
Proof. reflexivity. Qed.
Example basename_plain : OsPath.basename "suites/basic" = "basic".
Proof. reflexivity. Qed.
Example basename_trailing : OsPath.basename "suites/basic/" = "".
Proof. reflexivity. Qed.
Example dirname_plain : OsPath.dirname "/usr/bin/teuthology-suite" = "/usr/bin".
Proof. reflexivity. Qed.
Example dirname_root : OsPath.dirname "/x" = "/".
Proof. reflexivity. Qed.
Example dirname_none : OsPath.dirname "teuthology-suite" = "".
Proof. reflexivity. Qed.
Example sorted_names : Py.sorted ["tasks"; "clusters"; "Tasks"; "a.b"; "a"]
  = ["Tasks"; "a"; "a.b"; "clusters"; "tasks"].
Proof. vm_compute. reflexivity. Qed.
Example product_order : Py.product [[1; 2]; [3]; [4; 5]]
  = [[1; 3; 4]; [1; 3; 5]; [2; 3; 4]; [2; 3; 5]].
Proof. reflexivity. Qed.
Example munge_plain : SafePath.munge "suites//./basic/" = "suites/basic".
Proof. reflexivity. Qed.
Example munge_parent : SafePath.munge "../x" = "_./x".
Proof. reflexivity. Qed.
Example munge_root : SafePath.munge "/" = "_".
Proof. reflexivity. Qed.
Example demo_run :
  Suite.main SafePath.munge Demo.sys (Demo.args ["suites/basic"]) []
  = ([["/usr/bin/teuthology-schedule"; "--name"; "nightly"; "--description";
       "collection:basic clusters:fixed.yaml tasks:smoke.yaml"; "--"; "extra.yaml";
       "suites/basic/clusters/fixed.yaml"; "suites/basic/tasks/smoke.yaml"];
      ["/usr/bin/teuthology-schedule"; "--name"; "nightly"; "--description";
       "collection:basic clusters:three.yaml tasks:smoke.yaml"; "--"; "extra.yaml";
       "suites/basic/clusters/three.yaml"; "suites/basic/tasks/smoke.yaml"];
      ["/usr/bin/teuthology-schedule"; "--name"; "nightly"; "--last-in-suite";
       "--email"; "qa@example.com"]],
     Ok ()).
Proof. vm_compute. reflexivity. Qed.

Example three_jobs_report :
  exists t, Results.aggregate DemoArchive.three_jobs (DemoArchive.args 0) = Ok t
    /\ Results.passed t = ["1: one"]
    /\ Results.unfinished t = ["2"]
    /\ Results.failures t = ["3: three"; "    timeout"]
    /\ (Results.compose (DemoArchive.args 0) t).1
       = "1 failed, 1 possibly hung, and 1 passed tests in nightly".
Proof.
  eexists. split; [vm_compute; reflexivity|]. repeat split; vm_compute; reflexivity.
Qed.

(** ** Sorting *)

Section Sorting.

Lemma sorted_perm (l : list string) : Py.sorted l ≡ₚ l.
Proof. apply merge_sort_Permutation. Qed.

Lemma sorted_ascending (l : list string) : StronglySorted String.le (Py.sorted l).
Proof. apply StronglySorted_merge_sort; apply _. Qed.

(** The result of [sorted] does not depend on the order of its input. *)
Lemma sorted_stable (l l' : list string) : l ≡ₚ l' -> Py.sorted l = Py.sorted l'.
Proof.
  intros Hp. apply (StronglySorted_unique String.le); try apply sorted_ascending.
  now rewrite !sorted_perm.
Qed.

#[local] Instance tuple_le_total : Total Py.tuple_le.
Proof.
  intros [a1 a2] [b1 b2]. unfold Py.tuple_le. cbn [fst snd].
  repeat case_decide; try congruence; apply (total String.le).
Qed.

#[local] Instance tuple_le_trans : Transitive Py.tuple_le.
Proof.
  intros [a1 a2] [b1 b2] [c1 c2]. unfold Py.tuple_le. cbn [fst snd].
  repeat case_decide; subst; try congruence; intros Hx Hy.
  all: try (etransitivity; eassumption).
  exfalso. match goal with H : _ <> _ |- _ => apply H end.
  now apply (anti_symm String.le).
Qed.

#[local] Instance tuple_le_antisym : AntiSymm (=) Py.tuple_le.
Proof.
  intros [a1 a2] [b1 b2]. unfold Py.tuple_le. cbn [fst snd].
  repeat case_decide; subst; try congruence; intros Hx Hy.
  - f_equal. now apply (anti_symm String.le).
  - exfalso. match goal with H : _ <> _ |- _ => apply H end.
    now apply (anti_symm String.le).
Qed.

Lemma sorted_tuples_perm l : Py.sorted_tuples l ≡ₚ l.
Proof. apply merge_sort_Permutation. Qed.

Lemma sorted_tuples_ascending l : StronglySorted Py.tuple_le (Py.sorted_tuples l).
Proof. apply StronglySorted_merge_sort; apply _. Qed.

Lemma sorted_tuples_stable l l' : l ≡ₚ l' -> Py.sorted_tuples l = Py.sorted_tuples l'.
Proof.
  intros Hp. apply (StronglySorted_unique Py.tuple_le); try apply sorted_tuples_ascending.
  now rewrite !sorted_tuples_perm.
Qed.

(** A tuple order implies the order of the first components. *)
Lemma tuple_le_fst a b : Py.tuple_le a b -> String.le a.1 b.1.
Proof.
  unfold Py.tuple_le. destruct (decide (a.1 = b.1)) as [->|]; [reflexivity | tauto].
Qed.

Lemma StronglySorted_list_filter {A} (R : relation A) (p : A -> bool) l :
  StronglySorted R l -> StronglySorted R (List.filter p l).
Proof.
  induction 1 as [|x l Hs IH Hall]; simpl; [constructor|].
  destruct (p x); [|assumption]. constructor; [assumption|].
  rewrite Forall_forall in *. intros y Hy. apply Hall.
  apply list_elem_of_In. apply list_elem_of_In in Hy. now apply filter_In in Hy.
Qed.

End Sorting.

(** ** The product *)

Section Product.
Context {A : Type}.
Implicit Types (pools : list (list A)) (acc : list (list A)).

Lemma list_bind_assoc {X B C} (l : list X) (f : X -> list B) (g : B -> list C) :
  (l ≫= f) ≫= g = l ≫= (fun x => f x ≫= g).
Proof.
  induction l as [|x l IH]; [reflexivity|].
  now rewrite !bind_cons, bind_app, IH.
Qed.

Lemma list_bind_ret {X} (l : list X) : l ≫= (fun x => [x]) = l.
Proof. induction l as [|x l IH]; [reflexivity|]. now rewrite bind_cons, IH. Qed.

Lemma product_from acc pools :
  foldl (fun result pool => x ← result; y ← pool; [x ++ [y]]) acc pools
  = a ← acc; c ← Spec.nested_loops pools; [a ++ c].
Proof.
  revert acc. induction pools as [|pool rest IH]; intros acc; simpl.
  - rewrite <- (list_bind_ret acc) at 1. apply list_bind_ext; [|reflexivity].
    intros a. now rewrite app_nil_r.
  - rewrite IH. clear IH. rewrite list_bind_assoc.
    apply list_bind_ext; [|reflexivity]. intros a.
    rewrite !list_bind_assoc. apply list_bind_ext; [|reflexivity]. intros y.
    rewrite bind_singleton, list_bind_assoc.
    apply list_bind_ext; [|reflexivity]. intros c.
    rewrite bind_singleton. now rewrite <- app_assoc.
Qed.

(** [itertools.product] runs the nested loops. *)
Lemma product_nested pools : Py.product pools = Spec.nested_loops pools.
Proof.
  unfold Py.product. rewrite product_from, bind_singleton.
  apply list_bind_ret.
Qed.

Lemma nested_loops_cons (pool : list A) pools :
  Spec.nested_loops (pool :: pools)
  = x ← pool; (cons x <$> Spec.nested_loops pools).
Proof.
  simpl. apply list_bind_ext; [|reflexivity]. intros x.
  induction (Spec.nested_loops pools) as [|c cs IH]; [reflexivity|].
  rewrite bind_cons, IH. reflexivity.
Qed.

(** The choice from the last pool varies fastest. *)
Lemma product_snoc pools (last : list A) :
  Py.product (pools ++ [last]) = c ← Py.product pools; y ← last; [c ++ [y]].
Proof. unfold Py.product. now rewrite foldl_app. Qed.

Lemma length_nested_loops pools :
  length (Spec.nested_loops pools) = Spec.product_of (length <$> pools).
Proof.
  induction pools as [|pool rest IH]; [reflexivity|].
  rewrite nested_loops_cons.
  change (Spec.product_of (length <$> pool :: rest))
    with (length pool * Spec.product_of (length <$> rest)).
  rewrite <- IH. clear IH.
  induction pool as [|x pool IHp]; [reflexivity|].
  rewrite bind_cons, length_app, length_fmap, IHp. reflexivity.
Qed.

Lemma nested_loops_empty_pool pools :
  [] ∈ pools -> Spec.nested_loops pools = [].
Proof.
  induction pools as [|pool rest IH]; intros Hin; [inversion Hin|].
  rewrite nested_loops_cons.
  apply elem_of_cons in Hin as [<-|Hin]; [reflexivity|].
  rewrite (IH Hin). induction pool as [|x pool IHp]; [reflexivity|].
  rewrite bind_cons, IHp. reflexivity.
Qed.

Lemma elem_of_nested_loops pools (c : list A) :
  c ∈ Spec.nested_loops pools <-> Forall2 (fun x pool => x ∈ pool) c pools.
Proof.
  revert c. induction pools as [|pool rest IH]; intros c.
  - simpl. rewrite list_elem_of_singleton. split; [intros ->; constructor|].
    now inversion 1.
  - rewrite nested_loops_cons, list_elem_of_bind. split.
    + intros (x & Hc & Hx). apply list_elem_of_fmap in Hc as (c' & -> & Hc').
      constructor; [assumption|]. now apply IH.
    + inversion 1 as [|x ? c' ? Hx Hc']; subst. exists x. split; [|assumption].
      apply list_elem_of_fmap. exists c'. split; [reflexivity|]. now apply IH.
Qed.

Lemma NoDup_nested_loops pools :
  Forall NoDup pools -> NoDup (Spec.nested_loops pools).
Proof.
  induction 1 as [|pool rest Hp Hrest IH]; [apply NoDup_singleton|].
  rewrite nested_loops_cons. apply NoDup_bind; [| |assumption].
  - intros x1 x2 c _ _ H1 H2.
    apply list_elem_of_fmap in H1 as (c1 & -> & _).
    apply list_elem_of_fmap in H2 as (c2 & Heq & _). congruence.
  - intros x _. apply NoDup_fmap_2; [|assumption]. intros c1 c2. congruence.
Qed.

End Product.

(** ** Filtering and strings *)

Section Filtering.
Context {A : Type}.

Lemma list_filter_stdpp (p : A -> bool) (l : list A) :
  List.filter p l = filter (fun x => p x = true) l.
Proof.
  induction l as [|x l IH]; [reflexivity|]. simpl. rewrite filter_cons, IH.
  destruct (p x); [rewrite decide_True by reflexivity | rewrite decide_False by discriminate];
    reflexivity.
Qed.

Lemma list_filter_perm (p : A -> bool) (l l' : list A) :
  l ≡ₚ l' -> List.filter p l ≡ₚ List.filter p l'.
Proof. intros Hp. rewrite !list_filter_stdpp. now rewrite Hp. Qed.

Lemma list_filter_nodup (p : A -> bool) (l : list A) :
  NoDup l -> NoDup (List.filter p l).
Proof. rewrite list_filter_stdpp. apply NoDup_filter. Qed.

Lemma elem_of_list_filter (p : A -> bool) (l : list A) (x : A) :
  x ∈ List.filter p l <-> p x = true /\ x ∈ l.
Proof. now rewrite list_filter_stdpp, list_elem_of_filter. Qed.

Lemma list_filter_filter (p q : A -> bool) (l : list A) :
  List.filter p (List.filter q l) = List.filter (fun x => q x && p x) l.
Proof.
  induction l as [|x l IH]; [reflexivity|]. simpl.
  destruct (q x); simpl; [destruct (p x)|]; now rewrite IH.
Qed.

End Filtering.

Section Strings.

Lemma str_app_assoc (a b c : string) : (a +:+ b) +:+ c = a +:+ (b +:+ c).
Proof.
  induction a as [|x a IH]; [reflexivity|].
  unfold String.append; fold String.append. now rewrite IH.
Qed.

Lemma str_app_cons (x : ascii) (a b : string) :
  String x a +:+ b = String x (a +:+ b).
Proof. reflexivity. Qed.

Lemma str_app_nil (b : string) : "" +:+ b = b.
Proof. reflexivity. Qed.

(** Two strings without a space that are followed by a space are cut at
    the same place. *)
Lemma cut_at_space (n1 n2 r1 r2 : string) :
  Spec.has_space n1 = false -> Spec.has_space n2 = false ->
  n1 +:+ String " " r1 = n2 +:+ String " " r2 -> n1 = n2 /\ r1 = r2.
Proof.
  revert n2. induction n1 as [|c n1 IH]; intros [|d n2] H1 H2 Heq.
  - rewrite !str_app_nil in Heq. now injection Heq.
  - rewrite str_app_nil, str_app_cons in Heq. injection Heq as <- _.
    simpl in H2. discriminate.
  - rewrite str_app_nil, str_app_cons in Heq. injection Heq as -> _.
    simpl in H1. discriminate.
  - rewrite !str_app_cons in Heq. injection Heq as <- Heq.
    simpl in H1, H2. apply orb_false_iff in H1 as [_ H1].
    apply orb_false_iff in H2 as [_ H2].
    destruct (IH n2 H1 H2 Heq) as [-> ->]. now split.
Qed.

Lemma join_cons_cons (sep x y : string) (l : list string) :
  Py.join sep (x :: y :: l) = x +:+ sep +:+ Py.join sep (y :: l).
Proof. reflexivity. Qed.

End Strings.

(** ** The combination generator *)

Section Generator.
Variable fs : FileSystem.
Variable collection : string.

Lemma facets_listed names :
  listdir fs collection = Some names ->
  Suite.facets fs collection
  = Ok (List.filter
          (fun f => negb (Py.startswith f ".") && isdir fs (OsPath.join collection [f]))
          (Py.sorted names)).
Proof. intros H. unfold Suite.facets, os_listdir. now rewrite H. Qed.

Lemma is_facet_filter names :
  List.filter
    (fun f => negb (Py.startswith f ".") && isdir fs (OsPath.join collection [f])) names
  = filter (Spec.is_facet fs collection) names.
Proof.
  rewrite list_filter_stdpp. apply list_filter_iff. intros f. unfold Spec.is_facet.
  rewrite andb_true_iff, negb_true_iff. tauto.
Qed.

(** The facets that the loop runs through are the facets among the
    entries of the collection, in ascending order. *)
Lemma facets_spec names fcts :
  listdir fs collection = Some names ->
  Spec.facets_of fs collection names fcts ->
  Suite.facets fs collection = Ok fcts.
Proof.
  intros Hls [Hs Hp]. rewrite (facets_listed _ Hls). f_equal.
  apply (StronglySorted_unique String.le).
  - apply StronglySorted_list_filter, sorted_ascending.
  - exact Hs.
  - rewrite is_facet_filter, sorted_perm. now symmetry.
Qed.

Lemma facet_snippets_listed f es :
  listdir fs (OsPath.join collection [f]) = Some es ->
  Suite.facet_snippets fs collection f = Ok (Spec.pool_of collection f es).
Proof. intros H. unfold Suite.facet_snippets, os_listdir. now rewrite H. Qed.

Lemma facet_configs_listed fcts entries :
  Spec.facets_list fs collection fcts entries ->
  Suite.facet_configs fs collection fcts
  = Ok (zip_with (Spec.pool_of collection) fcts entries).
Proof.
  induction 1 as [|f es fcts entries Hf _ IH]; [reflexivity|].
  simpl. rewrite (facet_snippets_listed _ _ Hf). simpl. now rewrite IH.
Qed.

Lemma combinations_listed fcts entries :
  Suite.facets fs collection = Ok fcts ->
  Spec.facets_list fs collection fcts entries ->
  Suite.combinations fs collection
  = Ok (Spec.nested_loops (zip_with (Spec.pool_of collection) fcts entries)).
Proof.
  intros Hf He. unfold Suite.combinations. rewrite Hf. simpl.
  rewrite (facet_configs_listed _ _ He). simpl. now rewrite product_nested.
Qed.

Lemma combinations_of_facets names fcts entries :
  listdir fs collection = Some names ->
  Spec.facets_of fs collection names fcts ->
  Spec.facets_list fs collection fcts entries ->
  Suite.combinations fs collection
  = Ok (Spec.nested_loops (zip_with (Spec.pool_of collection) fcts entries)).
Proof.
  intros Hls Hf He. apply combinations_listed; [|exact He].
  exact (facets_spec _ _ Hls Hf).
Qed.

Lemma names_pool_of f es :
  Spec.names (Spec.pool_of collection f es)
  = List.filter Spec.is_snippet_name (Py.sorted es).
Proof.
  unfold Spec.names, Spec.pool_of. rewrite <- list_fmap_compose. apply list_fmap_id.
Qed.

Lemma length_pool_of f es :
  length (Spec.pool_of collection f es) = Spec.snippet_count es.
Proof.
  unfold Spec.pool_of, Spec.snippet_count. rewrite length_fmap.
  apply Permutation_length, list_filter_perm, sorted_perm.
Qed.

Lemma lengths_pools fcts entries :
  length fcts = length entries ->
  length <$> zip_with (Spec.pool_of collection) fcts entries
  = Spec.snippet_count <$> entries.
Proof.
  revert entries. induction fcts as [|f fcts IH]; intros [|es entries] Hlen;
    try discriminate; [reflexivity|].
  simpl. rewrite length_pool_of. f_equal. apply IH. now injection Hlen.
Qed.

(** The count of the specification is the number of combinations that
    the generator yields. *)
Lemma has_count_combos n :
  Spec.has_count fs collection n ->
  exists combos, Suite.combinations fs collection = Ok combos /\ length combos = n.
Proof.
  intros (names & fcts & entries & Hls & Hf & He & ->).
  eexists. split; [exact (combinations_of_facets _ _ _ Hls Hf He)|].
  rewrite length_nested_loops, lengths_pools; [reflexivity|].
  eapply Forall2_length; exact He.
Qed.

Lemma pool_of_nodup f es : NoDup es -> NoDup (Spec.pool_of collection f es).
Proof.
  intros Hnd. unfold Spec.pool_of. apply NoDup_fmap_2.
  - intros n1 n2. congruence.
  - apply list_filter_nodup. now rewrite sorted_perm.
Qed.

End Generator.

(** ** Descriptions *)

Section Descriptions.
Variable collection : string.

Lemma pools_tagged fcts entries :
  length fcts = length entries ->
  Spec.space_free entries ->
  Forall2 (Spec.tagged collection) fcts (zip_with (Spec.pool_of collection) fcts entries).
Proof.
  revert entries. induction fcts as [|f fcts IH]; intros [|es entries] Hlen Hfree;
    try discriminate; [constructor|].
  simpl. constructor.
  - intros x Hx. unfold Spec.pool_of in Hx.
    apply list_elem_of_fmap in Hx as (name & -> & Hname).
    apply elem_of_list_filter in Hname as [Hsnip Hin].
    rewrite sorted_perm in Hin. exists name. split; [reflexivity|].
    apply (Hfree es); [left|assumption..].
  - apply IH; [now injection Hlen|].
    intros es' name Hes'. apply Hfree. now right.
Qed.

Lemma items_inj fcts pools c1 c2 :
  Forall2 (Spec.tagged collection) fcts pools ->
  Forall2 (fun x pool => x ∈ pool) c1 pools ->
  Forall2 (fun x pool => x ∈ pool) c2 pools ->
  Py.join " " ((fun '(facet, name, path) => facet +:+ ":" +:+ name) <$> c1)
  = Py.join " " ((fun '(facet, name, path) => facet +:+ ":" +:+ name) <$> c2) ->
  c1 = c2.
Proof.
  intros Ht. revert c1 c2.
  induction Ht as [|f pool fcts pools Hf Ht IH]; intros c1 c2 H1 H2 Heq.
  - inversion H1; inversion H2; reflexivity.
  - inversion H1 as [|x1 ? r1 ? Hx1 Hr1]; subst.
    inversion H2 as [|x2 ? r2 ? Hx2 Hr2]; subst.
    destruct (Hf x1 Hx1) as (n1 & -> & Hs1).
    destruct (Hf x2 Hx2) as (n2 & -> & Hs2).
    destruct Hr1 as [|y1 pool' r1 pools' Hy1 Hr1].
    + inversion Hr2; subst. simpl in Heq.
      apply (inj (String.append f)), (inj (String.append ":")) in Heq. now subst.
    + inversion Hr2 as [|y2 ? r2' ? Hy2 Hr2']; subst.
      rewrite !fmap_cons in Heq. rewrite !join_cons_cons in Heq.
      rewrite !str_app_assoc in Heq.
      apply (inj (String.append f)), (inj (String.append ":")) in Heq.
      apply cut_at_space in Heq as [-> Heq]; [|assumption..].
      f_equal. apply IH; [now constructor..|]. exact Heq.
Qed.

Lemma description_inj cname fcts pools c1 c2 :
  Forall2 (Spec.tagged collection) fcts pools ->
  c1 ∈ Spec.nested_loops pools -> c2 ∈ Spec.nested_loops pools ->
  Suite.description cname c1 = Suite.description cname c2 -> c1 = c2.
Proof.
  intros Ht H1 H2 Heq. unfold Suite.description in Heq.
  apply (inj (String.append _)) in Heq.
  apply elem_of_nested_loops in H1, H2. eapply items_inj; eassumption.
Qed.

End Descriptions.

(** ** File systems given by a table *)

Lemma fs_of_table_nodup dirs files :
  Forall (fun d => NoDup d.2) dirs -> listing_nodup (fs_of_table dirs files).
Proof.
  intros Hall p l. simpl.
  destruct (List.find _ dirs) as [d|] eqn:Hfind; [|discriminate].
  intros [= <-]. apply find_some in Hfind as [Hin _].
  rewrite Forall_forall in Hall. apply Hall. now apply list_elem_of_In.
Qed.

Lemma fs_of_table_listable dirs files : dirs_listable (fs_of_table dirs files).
Proof.
  intros p. simpl. intros Hex. apply existsb_exists in Hex as (d & Hin & Hd).
  destruct (List.find _ dirs) as [d'|] eqn:Hfind; [now eexists|].
  eapply find_none in Hfind; [|exact Hin]. simpl in Hfind. congruence.
Qed.

Ltac table_nodup :=
  apply fs_of_table_nodup; repeat constructor;
  apply (bool_decide_unpack _); vm_compute; reflexivity.

(** The facets of a concrete collection, by evaluation. *)
Ltac facets_by_evaluation :=
  unfold Spec.facets_of; split; apply (bool_decide_unpack _); vm_compute; reflexivity.

(** ** C1: the number of combinations and their descriptions *)

(** C1, as stated, fails: in the collection [suites/odd] two different
    combinations have the same description, because a snippet name may
    contain the separator of the description. *)
Lemma descriptions_collide :
  listing_nodup Demo.odd_fs
  /\ exists combos, Suite.combinations Demo.odd_fs "suites/odd" = Ok combos
       /\ length combos = 4
       /\ ~ NoDup (Suite.description "odd" <$> combos).
Proof.
  split; [table_nodup|]. eexists. split; [vm_compute; reflexivity|].
  split; [reflexivity|]. apply (bool_decide_unpack _). vm_compute. reflexivity.
Qed.

(** C1 (amended): a collection whose facets [F1..Fn], the non-hidden
    subdirectories among its entries in ascending order, list [k1..kn]
    config snippets yields exactly [k1 * ... * kn] combinations; their
    descriptions are pairwise distinct when no directory lists a name twice
    and no snippet name contains a space. *)
Theorem combinations_count_distinct fs collection cname names fcts entries :
  listdir fs collection = Some names ->
  Spec.facets_of fs collection names fcts ->
  Spec.facets_list fs collection fcts entries ->
  exists combos, Suite.combinations fs collection = Ok combos
    /\ length combos = Spec.product_of (Spec.snippet_count <$> entries)
    /\ (listing_nodup fs -> Spec.space_free entries ->
        NoDup (Suite.description cname <$> combos)).
Proof.
  intros Hls Hf He. eexists.
  split; [exact (combinations_of_facets _ _ _ _ _ Hls Hf He)|].
  assert (Hlen : length fcts = length entries) by (eapply Forall2_length; exact He).
  split.
  - rewrite length_nested_loops. now rewrite lengths_pools.
  - intros Hnd Hfree. apply NoDup_fmap_2_strong.
    + intros c1 c2 H1 H2. eapply description_inj; [|eassumption..].
      now apply pools_tagged.
    + apply NoDup_nested_loops. clear Hf Hfree Hlen.
      induction He as [|f es fcts entries Hes _ IH]; simpl; constructor; [|exact IH].
      apply pool_of_nodup. exact (Hnd _ _ Hes).
Qed.

Lemma space_free_check entries :
  forallb (forallb (fun n => implb (Spec.is_snippet_name n) (negb (Spec.has_space n))))
    entries = true ->
  Spec.space_free entries.
Proof.
  intros Hall es name Hes Hname Hsnip.
  rewrite forallb_forall in Hall. apply list_elem_of_In, Hall in Hes.
  rewrite forallb_forall in Hes. apply list_elem_of_In, Hes in Hname.
  rewrite Hsnip in Hname. simpl in Hname. now apply negb_true_iff.
Qed.

Lemma combinations_count_distinct_witness :
  exists combos, Suite.combinations Demo.basic_fs "suites/basic" = Ok combos
    /\ length combos = 2
    /\ NoDup (Suite.description "basic" <$> combos).
Proof.
  destruct (combinations_count_distinct Demo.basic_fs "suites/basic" "basic"
              ["tasks"; ".git"; "clusters"; "README"]
              ["clusters"; "tasks"]
              [["three.yaml"; "fixed.yaml"; ".fixed.yaml.swp"; ".draft.yaml"];
               ["smoke.yaml"; "notes.txt"]])
    as (combos & Hc & Hlen & Hnd).
  - reflexivity.
  - facets_by_evaluation.
  - repeat constructor.
  - exists combos. split; [exact Hc|]. split; [exact Hlen|].
    apply Hnd; [table_nodup|]. apply space_free_check. vm_compute. reflexivity.
Defined.

(** ** C2: the order of the combinations *)

Section Order.

Lemma strictly_ascending (l : list string) :
  StronglySorted String.le l -> NoDup l -> StronglySorted Spec.str_lt l.
Proof.
  induction 1 as [|x l Hs IH Hall]; intros Hnd; [constructor|].
  apply NoDup_cons in Hnd as [Hx Hnd]. constructor; [now apply IH|].
  rewrite Forall_forall in *. intros y Hy. split; [now apply Hall|].
  intros ->. contradiction.
Qed.

Lemma pool_of_ascending collection f es :
  NoDup es -> StronglySorted Spec.name_lt (Spec.pool_of collection f es).
Proof.
  intros Hnd. unfold Spec.pool_of.
  apply (StronglySorted_fmap _ Spec.str_lt); [intros x y Hxy; exact Hxy|].
  apply StronglySorted_list_filter, strictly_ascending; [apply sorted_ascending|].
  now rewrite sorted_perm.
Qed.

Lemma nested_loops_lex (pools : list (list Suite.snippet)) :
  Forall (StronglySorted Spec.name_lt) pools ->
  StronglySorted Spec.lex_lt (Spec.names <$> Spec.nested_loops pools).
Proof.
  induction 1 as [|pool rest Hpool _ IH].
  - simpl. repeat constructor.
  - rewrite nested_loops_cons.
    induction Hpool as [|x pool Hpool IHpool Hx]; [constructor|].
    rewrite bind_cons, fmap_app. apply StronglySorted_app_2.
    + intros n1 n2 H1 H2.
      apply list_elem_of_fmap in H1 as (c1 & -> & H1).
      apply list_elem_of_fmap in H1 as (r1 & -> & _).
      apply list_elem_of_fmap in H2 as (c2 & -> & H2).
      apply list_elem_of_bind in H2 as (y & H2 & Hy).
      apply list_elem_of_fmap in H2 as (r2 & -> & _).
      rewrite Forall_forall in Hx. specialize (Hx y Hy).
      destruct x as [[? ?] ?], y as [[? ?] ?]. simpl. now constructor.
    + rewrite <- list_fmap_compose.
      assert (Heq : Spec.names ∘ cons x = cons x.1.2 ∘ Spec.names)
        by (destruct x as [[? ?] ?]; reflexivity).
      rewrite Heq, list_fmap_compose.
      eapply StronglySorted_fmap; [|exact IH]. intros n1 n2. apply Spec.lex_lt_tail.
    + exact IHpool.
Qed.

Lemma facets_stable fs fs' collection :
  Spec.same_entries fs fs' ->
  Suite.facets fs' collection = Suite.facets fs collection.
Proof.
  intros [Hdir Hls]. unfold Suite.facets, os_listdir. specialize (Hls collection).
  destruct (listdir fs collection) as [l|], (listdir fs' collection) as [l'|];
    try contradiction; [|reflexivity].
  simpl. rewrite (sorted_stable _ _ Hls). f_equal.
  apply filter_ext. intros f. now rewrite Hdir.
Qed.

Lemma facet_configs_stable fs fs' collection fcts :
  Spec.same_entries fs fs' ->
  Suite.facet_configs fs' collection fcts = Suite.facet_configs fs collection fcts.
Proof.
  intros [Hdir Hls]. induction fcts as [|f fcts IH]; [reflexivity|].
  simpl. rewrite IH. f_equal.
  unfold Suite.facet_snippets, os_listdir.
  specialize (Hls (OsPath.join collection [f])).
  destruct (listdir fs _) as [l|], (listdir fs' _) as [l'|];
    try contradiction; [|reflexivity].
  simpl. now rewrite (sorted_stable _ _ Hls).
Qed.

(** Generation does not depend on the order in which the directories are
    listed. *)
Lemma combinations_stable fs fs' collection :
  Spec.same_entries fs fs' ->
  Suite.combinations fs' collection = Suite.combinations fs collection.
Proof.
  intros Hsame. unfold Suite.combinations. rewrite (facets_stable _ _ _ Hsame).
  destruct (Suite.facets fs collection) as [fcts|]; [|reflexivity].
  simpl. now rewrite (facet_configs_stable _ _ _ _ Hsame).
Qed.

End Order.

Lemma pools_ascending collection fcts entries :
  length fcts = length entries ->
  Forall2 (fun pool es => StronglySorted String.le (Spec.names pool)
                          /\ Spec.names pool ≡ₚ Spec.snippets_among es)
          (zip_with (Spec.pool_of collection) fcts entries) entries.
Proof.
  revert entries. induction fcts as [|f fcts IH]; intros [|es entries] Hlen;
    try discriminate; [constructor|].
  cbn [zip_with]. constructor; [|apply IH; now injection Hlen].
  rewrite names_pool_of. split.
  - apply StronglySorted_list_filter, sorted_ascending.
  - unfold Spec.snippets_among. now rewrite list_filter_stdpp, sorted_perm.
Qed.

(** C2: the facets that the generator runs through are the facets among
    the entries of the collection in ascending order; the snippets of each
    facet are the config snippets among its entries in ascending order of
    their names; the combinations are those of the nested loops over these
    facets, the last facet innermost; with directories that list no name
    twice the emitted name lists ascend strictly in the lexicographic
    order; the result does not depend on the order in which the
    directories are listed; and the collection [basic] yields its two
    descriptions in the stated order. *)
Theorem combinations_product_order :
  (forall fs collection names fcts entries,
      listdir fs collection = Some names ->
      Spec.facets_of fs collection names fcts ->
      Spec.facets_list fs collection fcts entries ->
      let pools := zip_with (Spec.pool_of collection) fcts entries in
      Suite.facets fs collection = Ok fcts
      /\ Forall2 (fun pool es => StronglySorted String.le (Spec.names pool)
                                 /\ Spec.names pool ≡ₚ Spec.snippets_among es)
                 pools entries
      /\ Suite.combinations fs collection = Ok (Spec.nested_loops pools)
      /\ (forall front last, pools = front ++ [last] ->
            Spec.nested_loops pools
            = c ← Spec.nested_loops front; y ← last; [c ++ [y]])
      /\ (listing_nodup fs ->
            StronglySorted Spec.lex_lt (Spec.names <$> Spec.nested_loops pools))
      /\ (forall fs', Spec.same_entries fs fs' ->
            Suite.combinations fs' collection = Suite.combinations fs collection))
  /\ (OsPath.basename (SafePath.munge "basic") = "basic"
      /\ exists combos, Suite.combinations Demo.scenario_fs "basic" = Ok combos
           /\ Suite.description "basic" <$> combos
              = ["collection:basic clusters:fixed.yaml tasks:smoke.yaml";
                 "collection:basic clusters:three.yaml tasks:smoke.yaml"]).
Proof.
  split.
  - intros fs collection names fcts entries Hls Hf He pools. split_and!.
    + exact (facets_spec _ _ _ _ Hls Hf).
    + apply pools_ascending. eapply Forall2_length; exact He.
    + exact (combinations_of_facets _ _ _ _ _ Hls Hf He).
    + intros front last ->. rewrite <- !product_nested. apply product_snoc.
    + intros Hnd. apply nested_loops_lex. subst pools. clear Hf.
      induction He as [|f es fcts entries Hes _ IH]; simpl; constructor; [|exact IH].
      apply pool_of_ascending. exact (Hnd _ _ Hes).
    + intros fs'. apply combinations_stable.
  - split; [reflexivity|]. eexists. split; vm_compute; reflexivity.
Qed.

Lemma combinations_product_order_witness :
  Suite.facets Demo.basic_fs "suites/basic" = Ok ["clusters"; "tasks"]
  /\ Suite.combinations Demo.basic_fs "suites/basic"
     = Ok [[("clusters", "fixed.yaml", "suites/basic/clusters/fixed.yaml");
            ("tasks", "smoke.yaml", "suites/basic/tasks/smoke.yaml")];
           [("clusters", "three.yaml", "suites/basic/clusters/three.yaml");
            ("tasks", "smoke.yaml", "suites/basic/tasks/smoke.yaml")]]
  /\ StronglySorted Spec.lex_lt [["fixed.yaml"; "smoke.yaml"]; ["three.yaml"; "smoke.yaml"]].
Proof.
  destruct (proj1 combinations_product_order Demo.basic_fs "suites/basic"
              ["tasks"; ".git"; "clusters"; "README"]
              ["clusters"; "tasks"]
              [["three.yaml"; "fixed.yaml"; ".fixed.yaml.swp"; ".draft.yaml"];
               ["smoke.yaml"; "notes.txt"]])
    as (Hs & _ & Hc & _ & Hlex & _).
  - reflexivity.
  - facets_by_evaluation.
  - repeat constructor.
  - split; [exact Hs|]. split; [exact Hc|]. apply Hlex. table_nodup.
Defined.

(** ** C3: the order of the collections *)

(** C3, as stated, fails: the loop sorts the pairs of path and name, so
    the paths decide; given [b/kernel] and [a/rados] it takes [rados]
    before [kernel]. *)
Lemma names_not_ascending :
  Suite.processing_order SafePath.munge (Demo.args ["b/kernel"; "a/rados"])
  = [("a/rados", "rados"); ("b/kernel", "kernel")]
  /\ ~ StronglySorted String.le
       (snd <$> Suite.processing_order SafePath.munge (Demo.args ["b/kernel"; "a/rados"])).
Proof.
  split; [vm_compute; reflexivity|].
  intros Hs. apply StronglySorted_cons in Hs as [Hall _].
  apply Forall_cons in Hall as [Hle _]. vm_compute in Hle. exact Hle.
Qed.

Lemma fst_named_collections munge a :
  fst <$> Suite.named_collections munge a = Suite.collections a.
Proof.
  unfold Suite.named_collections. rewrite <- list_fmap_compose.
  induction (Suite.collections a) as [|c l IH]; [reflexivity|].
  rewrite fmap_cons, IH. reflexivity.
Qed.

(** The paths of the collections in the order of the loop. *)
Lemma processing_order_paths munge a :
  fst <$> Suite.processing_order munge a = Py.sorted (Suite.collections a).
Proof.
  unfold Suite.processing_order. apply (StronglySorted_unique String.le).
  - eapply StronglySorted_fmap; [|apply sorted_tuples_ascending].
    intros x y. apply tuple_le_fst.
  - apply sorted_ascending.
  - rewrite sorted_tuples_perm, fst_named_collections. now rewrite sorted_perm.
Qed.

(** C3 (amended): the collections are processed in ascending order of the
    pairs of path and name, that is in ascending order of their paths as
    given, whatever the order of the command line. *)
Theorem collections_processed_by_path munge a :
  StronglySorted Py.tuple_le (Suite.processing_order munge a)
  /\ Suite.processing_order munge a ≡ₚ Suite.named_collections munge a
  /\ fst <$> Suite.processing_order munge a = Py.sorted (Suite.collections a)
  /\ (forall a', Suite.collections a' ≡ₚ Suite.collections a ->
        Suite.processing_order munge a' = Suite.processing_order munge a).
Proof.
  split_and!.
  - apply sorted_tuples_ascending.
  - apply sorted_tuples_perm.
  - apply processing_order_paths.
  - intros a' Hp. apply sorted_tuples_stable.
    unfold Suite.named_collections. now rewrite Hp.
Qed.

(** ** The dispatcher *)

Section Dispatcher.
Variable s : Suite.Sys.

Lemma for_each_app {A} (l1 l2 : list A) (body : A -> Suite.Run unit) h :
  Suite.for_each (l1 ++ l2) body h
  = match Suite.for_each l1 body h with
    | (h', Ok _) => Suite.for_each l2 body h'
    | (h', Raise e) => (h', Raise e)
    end.
Proof.
  revert h. induction l1 as [|x l1 IH]; intros h; [reflexivity|].
  simpl. unfold mbind, Suite.run_bind.
  destruct (body x h) as [h' [[]|e]]; [apply IH | reflexivity].
Qed.

Lemma for_each_fmap {A B} (f : A -> B) (l : list A) (body : B -> Suite.Run unit) h :
  Suite.for_each (f <$> l) body h = Suite.for_each l (fun x => body (f x)) h.
Proof.
  revert h. induction l as [|x l IH]; intros h; [reflexivity|].
  simpl. unfold mbind, Suite.run_bind.
  destruct (body (f x) h) as [h' [[]|e]]; [apply IH | reflexivity].
Qed.

(** Nested loops of invocations are one loop over the flattened list. *)
Lemma for_each_bind {A B} (l : list A) (g : A -> list B) (body : B -> Suite.Run unit) h :
  Suite.for_each (l ≫= g) body h
  = Suite.for_each l (fun x => Suite.for_each (g x) body) h.
Proof.
  revert h. induction l as [|x l IH]; intros h; [reflexivity|].
  rewrite bind_cons, for_each_app. simpl. unfold mbind, Suite.run_bind.
  destruct (Suite.for_each (g x) body h) as [h' [[]|e]]; [apply IH | reflexivity].
Qed.

Lemma for_each_ext {A} (l : list A) (body body' : A -> Suite.Run unit) h :
  (forall x h, x ∈ l -> body x h = body' x h) ->
  Suite.for_each l body h = Suite.for_each l body' h.
Proof.
  revert h. induction l as [|x l IH]; intros h Hext; [reflexivity|].
  simpl. unfold mbind, Suite.run_bind. rewrite Hext by left.
  destruct (body' x h) as [h' [[]|e]]; [|reflexivity].
  apply IH. intros y h'' Hy. apply Hext. now right.
Qed.

(** A sequence of invocations either runs to its end or stops at the
    first one that fails. *)
Lemma calls_outcome l h h' r :
  Suite.for_each l (Suite.check_call s) h = (h', r) ->
  (r = Ok () /\ h' = h ++ l)
  \/ (exists pre arg post, l = pre ++ arg :: post /\ h' = h ++ pre ++ [arg]
        /\ Suite.exit_zero s (h ++ pre) arg = false
        /\ r = Raise (CalledProcessError arg)).
Proof.
  revert h. induction l as [|x l IH]; intros h Hrun.
  - injection Hrun as <- <-. left. now rewrite app_nil_r.
  - simpl in Hrun. unfold mbind, Suite.run_bind, Suite.check_call in Hrun.
    destruct (Suite.exit_zero s h x) eqn:Hx.
    + apply IH in Hrun as [[-> ->]|(pre & arg & post & -> & -> & Hz & ->)].
      * left. split; [reflexivity|]. now rewrite <- app_assoc.
      * right. exists (x :: pre), arg, post. rewrite <- !app_assoc in *.
        simpl in *. auto.
    + injection Hrun as <- <-. right. exists [], x, l. rewrite app_nil_r. auto.
Qed.

Lemma facet_configs_ok collection fcts :
  dirs_listable (Suite.fs s) ->
  Forall (fun f => isdir (Suite.fs s) (OsPath.join collection [f]) = true) fcts ->
  exists pools, Suite.facet_configs (Suite.fs s) collection fcts = Ok pools.
Proof.
  intros Hls. induction 1 as [|f fcts Hf _ [pools IH]]; [now eexists|].
  destruct (Hls _ Hf) as [es Hes]. cbn [Suite.facet_configs].
  rewrite (facet_snippets_listed _ _ _ _ Hes), IH. now eexists.
Qed.

Lemma combinations_ok collection :
  dirs_listable (Suite.fs s) -> isdir (Suite.fs s) collection = true ->
  Suite.combinations (Suite.fs s) collection
  = Ok (Spec.combos_of (Suite.fs s) collection).
Proof.
  intros Hls Hdir. unfold Spec.combos_of.
  destruct (Hls _ Hdir) as [names Hnames].
  unfold Suite.combinations. rewrite (facets_listed _ _ _ Hnames).
  destruct (facet_configs_ok collection
              (List.filter
                 (fun f => negb (Py.startswith f ".")
                           && isdir (Suite.fs s) (OsPath.join collection [f]))
                 (Py.sorted names)) Hls) as [pools Hpools].
  - apply Forall_forall. intros f Hf. apply elem_of_list_filter in Hf as [Hf _].
    now apply andb_true_iff in Hf as [_ Hf].
  - cbn [mbind result_bind]. rewrite Hpools. reflexivity.
Qed.

(** The turn of a collection whose combinations are generated. *)
Lemma schedule_collection_generated a c h combos :
  Suite.combinations (Suite.fs s) c.1 = Ok combos ->
  Suite.schedule_collection s a c h
  = Suite.for_each (Suite.job_arg s a c.2 <$> Spec.combos_of (Suite.fs s) c.1)
      (Suite.check_call s) h.
Proof.
  intros Hc. destruct c as [collection cname]. cbn [fst snd] in *.
  unfold Suite.schedule_collection, Spec.combos_of.
  unfold mbind at 1. unfold Suite.run_bind, Suite.lift.
  rewrite Hc. now rewrite for_each_fmap.
Qed.

(** With collections that are directories and whose combinations are
    generated, [main] is the sequence of the invocations of the
    combinations followed by the end marker. *)
Lemma main_calls_generated munge a h :
  Forall (fun c => isdir (Suite.fs s) c = true) (Suite.collections a) ->
  Forall (fun c => exists combos, Suite.combinations (Suite.fs s) c = Ok combos)
         (Suite.collections a) ->
  Suite.main munge s a h
  = Suite.for_each (Spec.job_args munge s a ++ [Suite.last_arg s a])
      (Suite.check_call s) h.
Proof.
  intros Hdirs Hgen. unfold Suite.main.
  assert (Hall : forallb (isdir (Suite.fs s)) (Suite.collections a) = true).
  { apply forallb_forall. intros c Hc. rewrite Forall_forall in Hdirs.
    now apply Hdirs, list_elem_of_In. }
  rewrite Hall. rewrite for_each_app. unfold Spec.job_args. rewrite for_each_bind.
  unfold mbind at 1 2. unfold Suite.run_bind. unfold mret, Suite.run_ret.
  rewrite (for_each_ext _ (Suite.schedule_collection s a)
             (fun c => Suite.for_each
                (Suite.job_arg s a c.2 <$> Spec.combos_of (Suite.fs s) c.1)
                (Suite.check_call s))).
  - destruct (Suite.for_each _ _ h) as [h' [[]|e]]; [|reflexivity].
    simpl. unfold mbind, Suite.run_bind.
    now destruct (Suite.check_call s (Suite.last_arg s a) h') as [h'' [[]|e]].
  - intros c h' Hc. rewrite Forall_forall in Hgen.
    destruct (Hgen c.1) as [combos Hcombos].
    + rewrite <- (sorted_perm (Suite.collections a)), <- (processing_order_paths munge).
      apply list_elem_of_fmap. now exists c.
    + exact (schedule_collection_generated _ _ _ _ Hcombos).
Qed.

Lemma main_calls munge a h :
  dirs_listable (Suite.fs s) ->
  Forall (fun c => isdir (Suite.fs s) c = true) (Suite.collections a) ->
  Suite.main munge s a h
  = Suite.for_each (Spec.job_args munge s a ++ [Suite.last_arg s a])
      (Suite.check_call s) h.
Proof.
  intros Hls Hdirs. apply main_calls_generated; [exact Hdirs|].
  eapply Forall_impl; [exact Hdirs|]. intros c Hc.
  eexists. now apply combinations_ok.
Qed.

(** The counts of the specification add up to the number of invocations
    of the combinations. *)
Lemma sum_of_counts cs counts :
  Forall2 (Spec.has_count (Suite.fs s)) cs counts ->
  sum_list_with (Spec.combo_count (Suite.fs s)) cs = sum_list counts
  /\ Forall (fun c => exists combos, Suite.combinations (Suite.fs s) c = Ok combos) cs.
Proof.
  induction 1 as [|c n cs counts Hc _ [IH1 IH2]]; [split; [reflexivity|constructor]|].
  destruct (has_count_combos _ _ _ Hc) as (combos & Hcombos & Hlen). split.
  - cbn [sum_list_with sum_list]. rewrite IH1. f_equal.
    unfold Spec.combo_count. now rewrite Hcombos.
  - constructor; [now exists combos|exact IH2].
Qed.

Lemma length_job_args munge a :
  length (Spec.job_args munge s a)
  = sum_list_with (Spec.combo_count (Suite.fs s)) (Suite.collections a).
Proof.
  rewrite <- (sorted_perm (Suite.collections a)), <- (processing_order_paths munge).
  unfold Spec.job_args.
  induction (Suite.processing_order munge a) as [|c l IH]; [reflexivity|].
  rewrite bind_cons, length_app, length_fmap, IH. simpl. f_equal.
  unfold Spec.combo_count, Spec.combos_of.
  now destruct (Suite.combinations (Suite.fs s) c.1).
Qed.

End Dispatcher.

(** ** C4: the invocations of a run *)

Section Invocations.
Variable s : Suite.Sys.
Variable a : Suite.Args.

Lemma reads_value (opt v : string) (rest : list string) :
  opt ∈ ["--name"; "--owner"; "--description"; "--email"; "--timeout"] ->
  Spec.reads_last_in_suite (opt :: v :: rest) = Spec.reads_last_in_suite rest.
Proof.
  intros Hin. repeat (apply elem_of_cons in Hin as [->|Hin]);
    [reflexivity..|inversion Hin].
Qed.

Lemma carries_after_base (rest : list string) :
  Spec.carries_last_in_suite (Suite.base_arg s a ++ rest)
  = Spec.reads_last_in_suite rest.
Proof.
  unfold Suite.base_arg, Spec.carries_last_in_suite. cbn [app].
  rewrite reads_value by set_solver. rewrite <- app_assoc.
  assert (Hv : forall l, Spec.reads_last_in_suite
            ((if Suite.verbose a then ["-v"] else []) ++ l)
          = Spec.reads_last_in_suite l) by (intros l; now destruct (Suite.verbose a)).
  rewrite Hv. unfold Suite.opt_arg.
  destruct (Suite.owner a) as [o|]; [|reflexivity].
  destruct (Py.nonempty o); [|reflexivity]. cbn [app].
  apply reads_value. set_solver.
Qed.

Lemma job_arg_no_flag cname configs :
  Spec.carries_last_in_suite (Suite.job_arg s a cname configs) = false.
Proof.
  unfold Suite.job_arg. rewrite carries_after_base. cbn [app].
  rewrite reads_value by set_solver. reflexivity.
Qed.

Lemma last_arg_flag : Spec.carries_last_in_suite (Suite.last_arg s a) = true.
Proof. unfold Suite.last_arg. rewrite carries_after_base. reflexivity. Qed.

Lemma job_args_no_flag munge :
  Forall (fun j => Spec.carries_last_in_suite j = false) (Spec.job_args munge s a).
Proof.
  unfold Spec.job_args. apply Forall_bind, Forall_forall. intros c _.
  apply Forall_fmap, Forall_forall. intros configs _. apply job_arg_no_flag.
Qed.

End Invocations.

(** C4, as stated, fails, in two ways.  A run in which a collection is
    not a directory makes no invocation at all: none fails, and there is
    no last one.  A run that comes to a facet that cannot be listed ends
    there: the invocations made before all succeeded, and none of them
    carries the flag. *)
Lemma runs_without_end_marker :
  (Suite.main SafePath.munge Demo.sys (Demo.args ["suites/basic"; "suites/nowhere"]) []
   = ([], Raise (SystemExit 1))
   /\ Spec.all_succeed Demo.sys [])
  /\ exists tr,
       Suite.main SafePath.munge Demo.locked_sys
         (Demo.args ["suites/locked"; "suites/basic"]) []
       = (tr, Raise (OSError "suites/locked/tasks"))
       /\ length tr = 2
       /\ Spec.all_succeed Demo.locked_sys tr
       /\ Forall (fun j => Spec.carries_last_in_suite j = false) tr.
Proof.
  split; [split; [vm_compute; reflexivity|intros h arg rest _; reflexivity]|].
  eexists. split; [vm_compute; reflexivity|]. split; [reflexivity|].
  split; [intros h arg rest _; reflexivity|].
  repeat constructor.
Qed.

(** C4 (amended): in a run over collections that are directories whose
    facets can be listed, in which every scheduler invocation succeeds,
    the invocations are those of the combinations, as many as the products
    [k1 * ... * kn] of the collections add up to, followed by one more;
    that last one has the last-in-suite flag with the optional email and
    timeout arguments, and no other has it. *)
Theorem invocations_count munge s a counts tr r :
  Forall (fun c => isdir (Suite.fs s) c = true) (Suite.collections a) ->
  Forall2 (Spec.has_count (Suite.fs s)) (Suite.collections a) counts ->
  Suite.main munge s a [] = (tr, r) ->
  Spec.all_succeed s tr ->
  r = Ok ()
  /\ exists jobs, tr = jobs ++ [Suite.last_arg s a]
       /\ length jobs = sum_list counts
       /\ Forall (fun j => Spec.carries_last_in_suite j = false) jobs
       /\ Spec.carries_last_in_suite (Suite.last_arg s a) = true
       /\ Suite.last_arg s a
          = Suite.base_arg s a ++ ["--last-in-suite"]
            ++ Suite.opt_arg "--email" (Suite.email a)
            ++ Suite.opt_arg "--timeout" (Suite.timeout a).
Proof.
  intros Hdirs Hcounts Hrun Hok.
  destruct (sum_of_counts s _ _ Hcounts) as [Hsum Hgen].
  rewrite (main_calls_generated _ _ _ _ Hdirs Hgen) in Hrun.
  apply calls_outcome in Hrun as [[-> ->]|(pre & arg & post & _ & -> & Hz & _)].
  - split; [reflexivity|]. exists (Spec.job_args munge s a). split_and!.
    + reflexivity.
    + rewrite length_job_args. exact Hsum.
    + apply job_args_no_flag.
    + apply last_arg_flag.
    + reflexivity.
  - simpl in Hz. rewrite (Hok pre arg []) in Hz; [discriminate|reflexivity].
Qed.

Lemma invocations_count_witness :
  exists jobs,
    Suite.main SafePath.munge Demo.sys
      (Demo.args ["suites/hollow"; "suites/basic"; "suites/empty"]) []
    = (jobs ++ [["/usr/bin/teuthology-schedule"; "--name"; "nightly";
                 "--last-in-suite"; "--email"; "qa@example.com"]], Ok ())
    /\ length jobs = sum_list [0; 2; 1].
Proof.
  pose (run := Suite.main SafePath.munge Demo.sys
                 (Demo.args ["suites/hollow"; "suites/basic"; "suites/empty"]) []).
  destruct (invocations_count SafePath.munge Demo.sys
              (Demo.args ["suites/hollow"; "suites/basic"; "suites/empty"])
              [0; 2; 1] run.1 run.2)
    as (Hr & jobs & Htr & Hlen & _).
  - repeat constructor.
  - repeat constructor.
    + exists ["clusters"; "tasks"], ["clusters"; "tasks"], [["fixed.yaml"]; []].
      split; [reflexivity|]. split; [facets_by_evaluation|].
      split; [repeat constructor|reflexivity].
    + exists ["tasks"; ".git"; "clusters"; "README"], ["clusters"; "tasks"],
        [["three.yaml"; "fixed.yaml"; ".fixed.yaml.swp"; ".draft.yaml"];
         ["smoke.yaml"; "notes.txt"]].
      split; [reflexivity|]. split; [facets_by_evaluation|].
      split; [repeat constructor|reflexivity].
    + exists [], [], []. split; [reflexivity|]. split; [facets_by_evaluation|].
      split; [repeat constructor|reflexivity].
  - apply surjective_pairing.
  - intros h arg rest _. reflexivity.
  - exists jobs. split; [|exact Hlen].
    rewrite (surjective_pairing (Suite.main _ _ _ _)). fold run.
    rewrite Htr, Hr. reflexivity.
Defined.

(** ** C5: collections without combinations, collections without facets *)

Lemma str_app_nil_r (x : string) : x +:+ "" = x.
Proof.
  induction x as [|c x IH]; [reflexivity|]. rewrite str_app_cons. now rewrite IH.
Qed.

Lemma for_each_singleton {A} (x : A) (body : A -> Suite.Run unit) h :
  Suite.for_each [x] body h = body x h.
Proof.
  simpl. unfold mbind, Suite.run_bind.
  now destruct (body x h) as [h' [[]|e]].
Qed.

Lemma pool_of_empty collection f es :
  Spec.snippet_count es = 0 -> Spec.pool_of collection f es = [].
Proof.
  intros Hz. apply nil_length_inv. now rewrite length_pool_of.
Qed.

(** C5, as stated, fails: in the collection [locked] the facet [clusters]
    holds no config snippet, but the facet [tasks] cannot be listed, and
    the turn of the collection ends with the error of the listing instead
    of an empty product. *)
Lemma unlistable_facet_raises :
  Spec.facets_of Demo.locked_fs "suites/locked" ["clusters"; "tasks"] ["clusters"; "tasks"]
  /\ listdir Demo.locked_fs "suites/locked/clusters" = Some []
  /\ Spec.snippet_count [] = 0
  /\ Suite.combinations Demo.locked_fs "suites/locked"
     = Raise (OSError "suites/locked/tasks")
  /\ Suite.schedule_collection Demo.locked_sys (Demo.args []) ("suites/locked", "locked") []
     = ([], Raise (OSError "suites/locked/tasks")).
Proof.
  split; [facets_by_evaluation|]. split_and!; vm_compute; reflexivity.
Qed.

(** C5 (amended): a collection whose facets can all be listed and one of
    which holds no config snippet has no combination, and its turn of the
    loop dispatches nothing and raises nothing; a collection without
    facets, that is without a non-hidden subdirectory among its entries,
    has exactly the empty combination, and its turn of the loop makes
    exactly one invocation, whose description is the collection name alone
    and which passes no snippet path. *)
Theorem degenerate_collections :
  (forall s a collection cname names fcts entries h,
      listdir (Suite.fs s) collection = Some names ->
      Spec.facets_of (Suite.fs s) collection names fcts ->
      Spec.facets_list (Suite.fs s) collection fcts entries ->
      (exists es, es ∈ entries /\ Spec.snippet_count es = 0) ->
      Suite.combinations (Suite.fs s) collection = Ok []
      /\ Suite.schedule_collection s a (collection, cname) h = (h, Ok ()))
  /\ (forall s a collection cname names h,
      listdir (Suite.fs s) collection = Some names ->
      Spec.facets_of (Suite.fs s) collection names [] ->
      Suite.combinations (Suite.fs s) collection = Ok [[]]
      /\ Suite.description cname [] = "collection:" +:+ cname +:+ " "
      /\ Suite.schedule_collection s a (collection, cname) h
         = Suite.check_call s
             (Suite.base_arg s a
              ++ ["--description"; "collection:" +:+ cname +:+ " "; "--"]
              ++ Suite.config a) h).
Proof.
  split.
  - intros s a collection cname names fcts entries h Hls Hf He (es & Hes & Hz).
    assert (Hc : Suite.combinations (Suite.fs s) collection = Ok []).
    { rewrite (combinations_of_facets _ _ _ _ _ Hls Hf He). f_equal.
      apply nested_loops_empty_pool. clear Hf.
      induction He as [|f es' fcts entries _ _ IH]; [inversion Hes|].
      apply elem_of_cons in Hes as [<-|Hes]; simpl.
      - rewrite (pool_of_empty _ _ _ Hz). left.
      - right. now apply IH. }
    split; [exact Hc|]. unfold Suite.schedule_collection.
    unfold mbind, Suite.run_bind, Suite.lift. now rewrite Hc.
  - intros s a collection cname names h Hls Hf.
    assert (Hc : Suite.combinations (Suite.fs s) collection = Ok [[]]).
    { unfold Suite.combinations. now rewrite (facets_spec _ _ _ _ Hls Hf). }
    assert (Hd : Suite.description cname [] = "collection:" +:+ cname +:+ " ")
      by (unfold Suite.description; simpl; apply str_app_nil_r).
    split; [exact Hc|]. split; [exact Hd|].
    unfold Suite.schedule_collection. unfold mbind at 1.
    unfold Suite.run_bind, Suite.lift. rewrite Hc, for_each_singleton.
    unfold Suite.job_arg. rewrite Hd, fmap_nil, app_nil_r. reflexivity.
Qed.

Lemma degenerate_collections_witness :
  (Suite.combinations Demo.basic_fs "suites/hollow" = Ok []
   /\ Suite.schedule_collection Demo.sys (Demo.args []) ("suites/hollow", "hollow") []
      = ([], Ok ()))
  /\ (Suite.combinations Demo.basic_fs "suites/empty" = Ok [[]]
      /\ Suite.schedule_collection Demo.sys (Demo.args []) ("suites/empty", "empty") []
         = ([["/usr/bin/teuthology-schedule"; "--name"; "nightly"; "--description";
              "collection:empty "; "--"; "extra.yaml"]], Ok ())).
Proof.
  split.
  - apply (proj1 degenerate_collections Demo.sys (Demo.args []) "suites/hollow" "hollow"
             ["clusters"; "tasks"] ["clusters"; "tasks"] [["fixed.yaml"]; []] []).
    + reflexivity.
    + facets_by_evaluation.
    + repeat constructor.
    + exists []. split; [set_solver|reflexivity].
  - destruct (proj2 degenerate_collections Demo.sys (Demo.args []) "suites/empty" "empty"
                [] [])
      as (Hc & _ & Hs).
    + reflexivity.
    + facets_by_evaluation.
    + split; [exact Hc|]. rewrite Hs. reflexivity.
Defined.

(** ** The poller *)

(** C6, as stated, fails: without a timeout the poller does return at
    once, but what it holds is not every non-hidden entry of the archive:
    the entries whose summary exists were looked at and left out. *)
Lemma poll_leaves_out_finished :
  Results.poll 0 DemoArchive.world (DemoArchive.args 0)
  = Some (Ok {| Results.running_tests := ["2"]; Results.now := 1000%Z;
                Results.sleeps := 0 |})
  /\ Spec.visible ["3"; "1"; ".lock"; "2"; "4"] = ["1"; "2"; "3"; "4"].
Proof. split; vm_compute; reflexivity. Qed.

Lemma wait_loop_no_timeout fuel w a starttime st :
  (Results.timeout a <= 0)%Z ->
  Results.wait_loop fuel w a starttime st = Some st.
Proof.
  intros Ht. assert (Hlt : (0 <? Results.timeout a)%Z = false) by (apply Z.ltb_ge; lia).
  destruct fuel; simpl; destruct (Results.running_tests st); rewrite ?Hlt; reflexivity.
Qed.

Lemma report_no_sleep cfg a t n : Results.Sleep n ∉ Results.report cfg a t.
Proof.
  unfold Results.report. destruct (Results.email a) as [to|]; [|apply not_elem_of_nil].
  destruct (Py.nonempty to); [|apply not_elem_of_nil].
  destruct (Results.compose a t). intros Hin.
  apply list_elem_of_singleton in Hin. discriminate.
Qed.

Lemma turns_mono (x y : Z) :
  (x <= y)%Z -> Z.to_nat (x / 10 + 1) <= Z.to_nat (y / 10 + 1).
Proof.
  intros Hxy. pose proof (Z.div_le_mono x y 10 ltac:(lia) Hxy) as Hq.
  remember (x / 10)%Z as qx. remember (y / 10)%Z as qy. lia.
Qed.

(** The turns that the loop can still take: one per job that is held,
    one per sleep that fits before the timeout. *)
Lemma wait_loop_returns fuel w a starttime st :
  length (Results.running_tests st)
  + Z.to_nat ((Results.timeout a - (Results.now st - starttime)) / 10 + 1) <= fuel ->
  is_Some (Results.wait_loop fuel w a starttime st).
Proof.
  revert st. induction fuel as [|fuel IH]; intros st Hfuel.
  - simpl. destruct (Results.running_tests st) as [|j l] eqn:Hrun; [now eexists|].
    simpl in Hfuel. lia.
  - cbn [Results.wait_loop].
    destruct (Results.running_tests st) as [|j l] eqn:Hrun; [now eexists|].
    destruct (0 <? Results.timeout a)%Z; [|now eexists]. cbn [negb].
    destruct (path_exists _ _).
    + apply IH. cbn [Results.running_tests Results.now].
      assert (Hlen : length (removelast (j :: l)) = length l).
      { rewrite removelast_firstn_len, firstn_length_le; simpl; lia. }
      rewrite Hlen. simpl in Hfuel.
      pose proof (turns_mono
        (Results.timeout a - (Results.now st + Z.of_N (Results.lag w (Results.now st))
                              - starttime))
        (Results.timeout a - (Results.now st - starttime)) ltac:(lia)).
      lia.
    + destruct (Results.timeout a <? Results.now st - starttime)%Z eqn:Hlate;
        [now eexists|].
      apply IH. cbn [Results.running_tests Results.now]. apply Z.ltb_ge in Hlate.
      pose proof (turns_mono
        (Results.timeout a - (Results.now st + 10 + Z.of_N (Results.lag w (Results.now st))
                              - starttime))
        (Results.timeout a - (Results.now st - starttime) + (-1) * 10) ltac:(lia)) as Hm.
      rewrite Z.div_add in Hm by lia.
      assert (0 <= (Results.timeout a - (Results.now st - starttime)) / 10)%Z
        by (apply Z.div_pos; lia).
      remember ((Results.timeout a - (Results.now st - starttime)) / 10)%Z as q.
      cbn [length] in *. lia.
Qed.

(** The poller always returns. *)
Lemma poll_returns w a : exists fuel, is_Some (Results.poll fuel w a).
Proof.
  unfold Results.poll.
  destruct (Results.initial_running _ a) as [running|e]; [|exists 0; now eexists].
  eexists. edestruct wait_loop_returns as [st ->]; [reflexivity|]. now eexists.
Qed.

(** So does [results]. *)
Lemma results_returns w cfg a : exists fuel, is_Some (Results.results fuel w cfg a).
Proof.
  destruct (poll_returns w a) as [fuel [[st|e] Hpoll]]; exists fuel;
    unfold Results.results; rewrite Hpoll; [|now eexists].
  destruct (Results.aggregate _ a); now eexists.
Qed.

(** C6 (amended): with a timeout of zero or less the poller returns at
    once, whatever the fuel, without sleeping; the jobs it holds as still
    running are the non-hidden entries of the archive, in ascending order,
    that had no summary when the archive was listed. *)
Theorem poll_without_wait fuel w a names :
  (Results.timeout a <= 0)%Z ->
  listdir (Results.fs_at w (Results.start w)) (Results.archive_dir a) = Some names ->
  Results.poll fuel w a
  = Some (Ok {| Results.running_tests :=
                  Spec.unfinished_jobs (Results.fs_at w (Results.start w)) a
                    (Spec.visible names);
                Results.now := Results.start w;
                Results.sleeps := 0 |})
  /\ (forall cfg ev r n,
        Results.results fuel w cfg a = Some (ev, r) -> Results.Sleep n ∉ ev).
Proof.
  intros Ht Hls.
  assert (Hpoll : Results.poll fuel w a
    = Some (Ok {| Results.running_tests :=
                    Spec.unfinished_jobs (Results.fs_at w (Results.start w)) a
                      (Spec.visible names);
                  Results.now := Results.start w;
                  Results.sleeps := 0 |})).
  { unfold Results.poll, Results.initial_running, os_listdir. rewrite Hls.
    cbn [mbind result_bind mret result_ret].
    rewrite (wait_loop_no_timeout _ _ _ _ _ Ht). cbn [fmap option_fmap option_map].
    do 3 f_equal. unfold Spec.unfinished_jobs, Spec.visible, Spec.shown.
    rewrite list_filter_filter. reflexivity. }
  split; [exact Hpoll|].
  intros cfg ev r n Hres. unfold Results.results in Hres. rewrite Hpoll in Hres.
  cbn [Results.sleeps Results.now replicate app] in Hres.
  destruct (Results.aggregate _ a) as [t|e]; inversion Hres; subst; clear Hres.
  - rewrite elem_of_cons. intros [Hn|Hn]; [discriminate|].
    now apply report_no_sleep in Hn.
  - rewrite elem_of_cons. intros [Hn|Hn]; [discriminate|]. inversion Hn.
Qed.

Lemma poll_without_wait_witness :
  Results.poll 0 DemoArchive.world (DemoArchive.args 0)
  = Some (Ok {| Results.running_tests := ["2"]; Results.now := 1000%Z;
                Results.sleeps := 0 |}).
Proof.
  apply (proj1 (poll_without_wait 0 DemoArchive.world (DemoArchive.args 0)
                  ["3"; "1"; ".lock"; "2"; "4"] ltac:(simpl; lia) eq_refl)).
Defined.

(** ** The aggregator *)

Section Aggregator.
Variable fs : FileSystem.
Variable a : Results.Args.

(** What the loop has added to the five lists when it ends normally. *)
Lemma classify_all_ok jobs t0 t :
  Results.classify_all fs a t0 jobs = Ok t ->
  Results.descriptions t
  = Results.descriptions t0
    ++ (Spec.line_of fs a <$> Spec.finished_jobs fs a (Spec.shown jobs))
  /\ Results.unfinished t
     = Results.unfinished t0 ++ Spec.unfinished_jobs fs a (Spec.shown jobs)
  /\ Results.passed t
     = Results.passed t0 ++ (Spec.line_of fs a <$> Spec.passed_jobs fs a (Spec.shown jobs))
  /\ Results.failures t
     = Results.failures t0
       ++ (j ← Spec.failed_jobs fs a (Spec.shown jobs);
           Spec.line_of fs a j :: Spec.reason_lines fs a j)
  /\ Results.num_failures t
     = Results.num_failures t0 + length (Spec.failed_jobs fs a (Spec.shown jobs)).
Proof.
  unfold Spec.failed_jobs, Spec.passed_jobs, Spec.finished_jobs, Spec.unfinished_jobs.
  revert t0. induction jobs as [|j jobs IH]; intros t0 Hrun.
  - injection Hrun as <-. simpl. rewrite !app_nil_r, Nat.add_0_r. auto.
  - cbn [Results.classify_all] in Hrun. unfold Results.classify in Hrun.
    change (Spec.shown (j :: jobs))
      with (if negb (Py.startswith j ".") then j :: Spec.shown jobs else Spec.shown jobs).
    destruct (Py.startswith j ".") eqn:Hhid; cbn [negb].
    { apply IH in Hrun. exact Hrun. }
    fold (Spec.finished fs a j) in Hrun.
    cbn [List.filter].
    destruct (Spec.finished fs a j) eqn:Hfin; cbn [negb List.filter].
    2:{ apply IH in Hrun as (Hd & Hu & Hp & Hf & Hn).
        cbn in Hd, Hu, Hp, Hf, Hn. rewrite Hd, Hu, Hp, Hf, Hn.
        rewrite <- app_assoc. auto. }
    cbn [negb] in Hrun. unfold Results.read_summary in Hrun.
    destruct (open_error fs _); [discriminate|].
    destruct (load_error fs _); [discriminate|].
    cbn [mbind result_bind] in Hrun. fold (Spec.summary_of fs a j) in Hrun.
    unfold Results.getitem in Hrun.
    assert (Hline : forall d, Spec.summary_of fs a j !! "description" = Some d ->
              Spec.line_of fs a j = j +:+ ": " +:+ Results.py_str d)
      by (intros d Hd; unfold Spec.line_of; now rewrite Hd).
    destruct (Spec.summary_of fs a j !! "description") as [d|] eqn:Hdesc;
      [|discriminate].
    specialize (Hline d eq_refl). cbn [mbind result_bind] in Hrun.
    assert (Hs : forall ok, Spec.summary_of fs a j !! "success" = Some ok ->
              Spec.succeeded fs a j = Results.py_bool ok)
      by (intros ok Hok; unfold Spec.succeeded; now rewrite Hok).
    destruct (Spec.summary_of fs a j !! "success") as [ok|] eqn:Hsucc;
      [|discriminate].
    specialize (Hs ok eq_refl). cbn [mbind result_bind] in Hrun. rewrite Hs.
    destruct (Results.py_bool ok) eqn:Hok; cbn [negb List.filter].
    + apply IH in Hrun as (Hd & Hu & Hp & Hf & Hn).
      cbn in Hd, Hu, Hp, Hf, Hn. rewrite Hd, Hu, Hp, Hf, Hn.
      rewrite !fmap_cons, Hline, <- !app_assoc. auto.
    + rewrite bind_cons, fmap_cons, Hline. unfold Spec.reason_lines at 1.
      destruct (Spec.summary_of fs a j !! "failure_reason") as [reason|] eqn:Hreason;
        apply IH in Hrun as (Hd & Hu & Hp & Hf & Hn);
        cbn in Hd, Hu, Hp, Hf, Hn; rewrite Hd, Hu, Hp, Hf, Hn;
        rewrite <- ?app_assoc; cbn [app length]; split_and!; try reflexivity; lia.
Qed.

Lemma aggregate_ok names t :
  listdir fs (Results.archive_dir a) = Some names ->
  Results.aggregate fs a = Ok t ->
  Results.descriptions t
  = Spec.line_of fs a <$> Spec.finished_jobs fs a (Spec.visible names)
  /\ Results.unfinished t = Spec.unfinished_jobs fs a (Spec.visible names)
  /\ Results.passed t
     = Spec.line_of fs a <$> Spec.passed_jobs fs a (Spec.visible names)
  /\ Results.failures t
     = (j ← Spec.failed_jobs fs a (Spec.visible names);
        Spec.line_of fs a j :: Spec.reason_lines fs a j)
  /\ Results.num_failures t = length (Spec.failed_jobs fs a (Spec.visible names)).
Proof.
  intros Hls Hagg. unfold Results.aggregate, os_listdir in Hagg. rewrite Hls in Hagg.
  cbn [mbind result_bind] in Hagg. apply classify_all_ok in Hagg. exact Hagg.
Qed.

Lemma read_summary_readable j :
  Spec.readable fs a j ->
  Results.read_summary fs (Results.summary_fn a j) = Ok (Spec.summary_of fs a j).
Proof. intros [Ho Hl]. unfold Results.read_summary. now rewrite Ho, Hl. Qed.

Lemma read_summary_ok j summary :
  Results.read_summary fs (Results.summary_fn a j) = Ok summary ->
  Spec.readable fs a j /\ summary = Spec.summary_of fs a j.
Proof.
  unfold Results.read_summary, Spec.readable.
  destruct (open_error fs _); [discriminate|].
  destruct (load_error fs _); [discriminate|]. intros [= <-]. auto.
Qed.

(** The body of the loop raises what opening or loading the summary
    raises, or else one of the two key errors. *)
Lemma classify_raise t j e :
  Results.classify fs a t j = Raise e ->
  Py.startswith j "." = false /\ Spec.finished fs a j = true
  /\ (Results.read_summary fs (Results.summary_fn a j) = Raise e
      \/ (Spec.readable fs a j
          /\ (e = KeyError "description" \/ e = KeyError "success"))).
Proof.
  unfold Results.classify, Results.getitem, Spec.finished.
  destruct (Py.startswith j "."); [discriminate|].
  destruct (path_exists fs _); [|discriminate]. cbn [negb].
  destruct (Results.read_summary fs _) as [summary|e'] eqn:Hread;
    cbn [mbind result_bind]; [|intros [= <-]; auto].
  apply read_summary_ok in Hread as [Hread ->].
  destruct (_ !! "description"); [|intros [= <-]; auto 6].
  cbn [mbind result_bind].
  destruct (_ !! "success") as [ok|]; [|intros [= <-]; auto 6].
  cbn [mbind result_bind]. destruct (Results.py_bool ok); [discriminate|].
  now destruct (_ !! "failure_reason").
Qed.

(** A finished job whose summary lacks a required field ends the loop. *)
Lemma classify_malformed t j :
  Py.startswith j "." = false -> Spec.finished fs a j = true -> Spec.malformed fs a j ->
  exists e, Results.classify fs a t j = Raise e.
Proof.
  intros Hhid Hfin Hbad. unfold Results.classify, Results.getitem.
  rewrite Hhid. fold (Spec.finished fs a j). rewrite Hfin. cbn [negb].
  destruct (Results.read_summary fs _) as [summary|e] eqn:Hread;
    cbn [mbind result_bind]; [|now eexists].
  apply read_summary_ok in Hread as [_ ->].
  destruct (Spec.summary_of fs a j !! "description") as [d|] eqn:Hd; [|now eexists].
  cbn [mbind result_bind]. destruct Hbad as [Hbad|Hbad]; [congruence|].
  rewrite Hbad. now eexists.
Qed.

Lemma classify_all_malformed jobs t j :
  j ∈ jobs ->
  Py.startswith j "." = false -> Spec.finished fs a j = true -> Spec.malformed fs a j ->
  exists e, Results.classify_all fs a t jobs = Raise e.
Proof.
  intros Hin Hhid Hfin Hbad. revert t.
  induction jobs as [|j' jobs IH]; intros t; [inversion Hin|].
  cbn [Results.classify_all].
  destruct (Results.classify fs a t j') as [t'|e] eqn:Hc.
  - cbn [mbind result_bind]. apply elem_of_cons in Hin as [<-|Hin].
    + destruct (classify_malformed t j Hhid Hfin Hbad) as [e He]. congruence.
    + now apply IH.
  - cbn [mbind result_bind]. now eexists.
Qed.

(** Where the loop ends with an exception, an entry raised it. *)
Lemma classify_all_raise jobs t e :
  Results.classify_all fs a t jobs = Raise e ->
  exists j t', j ∈ jobs /\ Results.classify fs a t' j = Raise e.
Proof.
  revert t. induction jobs as [|j jobs IH]; intros t; [discriminate|].
  cbn [Results.classify_all].
  destruct (Results.classify fs a t j) as [t'|e'] eqn:Hc; cbn [mbind result_bind].
  - intros Hrun. destruct (IH _ Hrun) as (j' & t'' & Hin & Hj').
    exists j', t''. split; [now right|exact Hj'].
  - intros [= <-]. exists j, t. split; [left|exact Hc].
Qed.

(** What a normal end of the loop says of a finished job. *)
Lemma classify_ok_inv t j t' :
  Results.classify fs a t j = Ok t' ->
  Py.startswith j "." = false -> Spec.finished fs a j = true ->
  Spec.readable fs a j
  /\ is_Some (Spec.summary_of fs a j !! "description")
  /\ is_Some (Spec.summary_of fs a j !! "success").
Proof.
  intros Hc Hhid Hfin. unfold Results.classify, Results.getitem in Hc.
  rewrite Hhid in Hc. fold (Spec.finished fs a j) in Hc. rewrite Hfin in Hc.
  cbn [negb] in Hc.
  destruct (Results.read_summary fs _) as [summary|e] eqn:Hread; [|discriminate].
  apply read_summary_ok in Hread as [Hread ->]. cbn [mbind result_bind] in Hc.
  destruct (Spec.summary_of fs a j !! "description") as [d|]; [|discriminate].
  cbn [mbind result_bind] in Hc.
  destruct (Spec.summary_of fs a j !! "success") as [ok|]; [|discriminate].
  eauto.
Qed.

Lemma classify_all_ok_inv jobs t t' :
  Results.classify_all fs a t jobs = Ok t' ->
  forall j, j ∈ jobs -> Py.startswith j "." = false -> Spec.finished fs a j = true ->
    Spec.readable fs a j
    /\ is_Some (Spec.summary_of fs a j !! "description")
    /\ is_Some (Spec.summary_of fs a j !! "success").
Proof.
  revert t. induction jobs as [|j' jobs IH]; intros t Hrun j Hj Hhid Hfin;
    [inversion Hj|].
  cbn [Results.classify_all] in Hrun.
  destruct (Results.classify fs a t j') as [t1|e] eqn:Hc; [|discriminate].
  cbn [mbind result_bind] in Hrun. apply elem_of_cons in Hj as [->|Hj].
  - exact (classify_ok_inv _ _ _ Hc Hhid Hfin).
  - exact (IH _ Hrun j Hj Hhid Hfin).
Qed.

End Aggregator.

(** ** C7: summaries that lack a required field *)




(** ** C8: the list of descriptions *)

(** C8, as stated, fails: job [2] is classified as unfinished and has no
    line in the list of descriptions. *)
Lemma unfinished_job_has_no_line :
  exists t, Results.aggregate DemoArchive.archive (DemoArchive.args 0) = Ok t
    /\ Results.unfinished t = ["2"]
    /\ Results.descriptions t
       = ["1: collection:basic clusters:fixed.yaml";
          "3: collection:basic clusters:three.yaml";
          "4: collection:basic clusters:four.yaml"].
Proof. eexists. split; [vm_compute; reflexivity|]. split; reflexivity. Qed.

Lemma visible_ascending names : StronglySorted String.le (Spec.visible names).
Proof. apply StronglySorted_list_filter, sorted_ascending. Qed.

(** C8 (amended): when the aggregation ends normally, the list of
    descriptions holds exactly one line [<jobId>: <description>] for every
    non-hidden entry that has a summary, passed or failed, in the
    ascending order of the entries; the entries without a summary are the
    unfinished jobs and have no line. *)
Theorem descriptions_of_finished_jobs fs a names t :
  listdir fs (Results.archive_dir a) = Some names ->
  Results.aggregate fs a = Ok t ->
  Results.descriptions t
  = Spec.line_of fs a <$> Spec.finished_jobs fs a (Spec.visible names)
  /\ StronglySorted String.le (Spec.finished_jobs fs a (Spec.visible names))
  /\ (forall j, j ∈ Spec.finished_jobs fs a (Spec.visible names) ->
        exists d, Spec.summary_of fs a j !! "description" = Some d
          /\ Spec.line_of fs a j = j +:+ ": " +:+ Results.py_str d)
  /\ Results.unfinished t = Spec.unfinished_jobs fs a (Spec.visible names).
Proof.
  intros Hls Hagg. destruct (aggregate_ok fs a names t Hls Hagg) as (Hd & Hu & _).
  split; [exact Hd|]. split; [apply StronglySorted_list_filter, visible_ascending|].
  split; [|exact Hu].
  intros j Hj. unfold Spec.finished_jobs in Hj.
  apply elem_of_list_filter in Hj as [Hfin Hj].
  unfold Spec.visible, Spec.shown in Hj. apply elem_of_list_filter in Hj as [Hhid Hj].
  apply negb_true_iff in Hhid.
  destruct (Spec.summary_of fs a j !! "description") as [d|] eqn:Hdesc.
  - exists d. split; [reflexivity|]. unfold Spec.line_of. now rewrite Hdesc.
  - exfalso.
    destruct (classify_all_malformed fs a (Py.sorted names) Results.empty_tally j)
      as (e & Hrun); try assumption; [now left|].
    unfold Results.aggregate, os_listdir in Hagg. rewrite Hls in Hagg.
    cbn [mbind result_bind] in Hagg. congruence.
Qed.

Lemma descriptions_of_finished_jobs_witness :
  exists t, Results.aggregate DemoArchive.archive (DemoArchive.args 0) = Ok t
    /\ Results.descriptions t
       = Spec.line_of DemoArchive.archive (DemoArchive.args 0) <$> ["1"; "3"; "4"].
Proof.
  eexists. split; [vm_compute; reflexivity|].
  apply (descriptions_of_finished_jobs DemoArchive.archive (DemoArchive.args 0)
           ["3"; "1"; ".lock"; "2"; "4"] _ eq_refl eq_refl).
Defined.

(** ** C9: the subject of the report *)

Lemma pretty_N_go_head x s :
  (exists c r, s = String c r /\ c <> "A"%char) ->
  exists c r, pretty_N_go x s = String c r /\ c <> "A"%char.
Proof.
  revert s. induction (N.lt_wf_0 x) as [x _ IH]; intros s Hs.
  assert (x = 0 \/ 0 < x)%N as [->|Hpos] by lia.
  - now rewrite pretty_N_go_0.
  - rewrite pretty_N_go_step by assumption. apply IH.
    + now apply N.div_lt.
    + eexists _, _. split; [reflexivity|].
      unfold pretty_N_char. repeat case_match; discriminate.
Qed.

(** A printed count starts with a digit. *)
Lemma pretty_nat_head (n : nat) :
  exists c r, pretty n = String c r /\ c <> "A"%char.
Proof.
  unfold pretty, pretty_nat, pretty, pretty_N.
  case_decide; [eexists _, _; split; [reflexivity|discriminate]|].
  rewrite pretty_N_go_step by lia. apply pretty_N_go_head.
  eexists _, _. split; [reflexivity|].
  unfold pretty_N_char. repeat case_match; discriminate.
Qed.

Lemma subjects_differ a t : Results.counts_subject a t <> Results.success_subject a.
Proof.
  unfold Results.counts_subject, Results.success_subject.
  destruct (pretty_nat_head (Results.num_failures t)) as (c & r & -> & Hc).
  intros Heq. injection Heq as Heq _. contradiction.
Qed.

(** C9: the report has the subject of full success exactly when the list
    of failures and the list of unfinished jobs are both empty; otherwise
    its subject gives the numbers of failed, possibly hung and passed
    tests; and this is the subject of the message that is sent. *)
Theorem subject_of_report a t :
  ((Results.compose a t).1 = Results.success_subject a
   <-> Results.failures t = [] /\ Results.unfinished t = [])
  /\ (~ (Results.failures t = [] /\ Results.unfinished t = []) ->
      (Results.compose a t).1
      = pretty (Results.num_failures t) +:+ " failed, "
        +:+ pretty (length (Results.unfinished t)) +:+ " possibly hung, and "
        +:+ pretty (length (Results.passed t)) +:+ " passed tests in "
        +:+ Results.name a)
  /\ (forall cfg m, m ∈ Results.report cfg a t ->
        exists msg, m = Results.Sendmail msg
          /\ Results.msg_subject msg = (Results.compose a t).1).
Proof.
  split_and!.
  - unfold Results.compose.
    destruct (Results.failures t) as [|f fl], (Results.unfinished t) as [|u ul];
      cbn [Results.nonnil orb fst]; split; try tauto;
      try (intros []; discriminate); intros Heq; now apply subjects_differ in Heq.
  - intros Hne. unfold Results.compose.
    destruct (Results.failures t) as [|f fl] eqn:Hf,
             (Results.unfinished t) as [|u ul] eqn:Hu;
      cbn [Results.nonnil orb fst]; [now destruct Hne|..];
      unfold Results.counts_subject; now rewrite Hu.
  - intros cfg m. unfold Results.report.
    destruct (Results.email a) as [to|]; [|intros H; inversion H].
    destruct (Py.nonempty to); [|intros H; inversion H].
    destruct (Results.compose a t) as [subject body].
    intros ->%list_elem_of_singleton. now eexists.
Qed.

(** ** C10: the number of failures in the subject *)

Lemma length_failure_lines fs a (failed : list string) :
  length (j ← failed; Spec.line_of fs a j :: Spec.reason_lines fs a j)
  = length failed + length (List.filter (Spec.has_reason fs a) failed).
Proof.
  induction failed as [|j failed IH]; [reflexivity|].
  rewrite bind_cons, length_app, IH. cbn [List.filter length].
  unfold Spec.reason_lines, Spec.has_reason.
  destruct (Spec.summary_of fs a j !! "failure_reason"); cbn [length]; lia.
Qed.

(** C10: when the aggregation ends normally, the number of failures that
    the subject gives is the number of failed jobs, while the list of
    failures of the body has one line per failed job and one more for each
    failed job whose summary gives a reason; the subject with the numbers
    is the one used as soon as a job has failed. *)
Theorem failed_count_in_subject fs a names t :
  listdir fs (Results.archive_dir a) = Some names ->
  Results.aggregate fs a = Ok t ->
  let jobs := Spec.visible names in
  let failed := Spec.failed_jobs fs a jobs in
  Results.num_failures t = length failed
  /\ length (Results.failures t)
     = length failed + length (List.filter (Spec.has_reason fs a) failed)
  /\ Results.counts_subject a t
     = pretty (length failed) +:+ " failed, "
       +:+ pretty (length (Spec.unfinished_jobs fs a jobs)) +:+ " possibly hung, and "
       +:+ pretty (length (Spec.passed_jobs fs a jobs)) +:+ " passed tests in "
       +:+ Results.name a
  /\ (failed <> [] -> (Results.compose a t).1 = Results.counts_subject a t).
Proof.
  intros Hls Hagg jobs failed.
  destruct (aggregate_ok fs a names t Hls Hagg) as (_ & Hu & Hp & Hf & Hn).
  fold jobs in Hu, Hp, Hf, Hn. fold failed in Hf, Hn. split_and!.
  - exact Hn.
  - rewrite Hf. apply length_failure_lines.
  - unfold Results.counts_subject. now rewrite Hn, Hu, Hp, length_fmap.
  - intros Hne. unfold Results.compose. rewrite Hf.
    destruct failed as [|j failed']; [contradiction|]. reflexivity.
Qed.

Lemma failed_count_in_subject_witness :
  let t := {| Results.descriptions :=
                ["1: collection:basic clusters:fixed.yaml";
                 "3: collection:basic clusters:three.yaml";
                 "4: collection:basic clusters:four.yaml"];
              Results.failures :=
                ["3: collection:basic clusters:three.yaml"; "    timeout";
                 "4: collection:basic clusters:four.yaml"];
              Results.num_failures := 2;
              Results.unfinished := ["2"];
              Results.passed := ["1: collection:basic clusters:fixed.yaml"] |} in
  Results.aggregate DemoArchive.archive (DemoArchive.args 0) = Ok t
  /\ Results.num_failures t = 2
  /\ length (Results.failures t) = 3
  /\ (Results.compose (DemoArchive.args 0) t).1
     = "2 failed, 1 possibly hung, and 1 passed tests in nightly".
Proof.
  intros t.
  assert (Hagg : Results.aggregate DemoArchive.archive (DemoArchive.args 0) = Ok t)
    by (vm_compute; reflexivity).
  destruct (failed_count_in_subject DemoArchive.archive (DemoArchive.args 0)
              ["3"; "1"; ".lock"; "2"; "4"] t eq_refl Hagg)
    as (Hn & Hl & Hs & Hc).
  split; [exact Hagg|]. split; [exact Hn|]. split; [exact Hl|].
  etransitivity; [apply Hc; vm_compute; discriminate|].
  etransitivity; [exact Hs|]. vm_compute. reflexivity.
Defined.

(** ** [ls] on concrete archives *)

Example ls_demo :
  Ls.ls DemoLs.world (DemoLs.args true)
  = (["1 pass qa collection:basic clusters:fixed.yaml";
      "2 (no summary.yaml)";
      "3 FAIL - collection:basic clusters:three.yaml";
      "    timeout";
      "4 FAIL - collection:basic clusters:four.yaml"], None).
Proof. vm_compute. reflexivity. Qed.

Example ls_no_description :
  Ls.ls DemoLs.no_description (DemoLs.args false)
  = (["1 pass - collection:basic clusters:fixed.yaml"; "5 pass - -"], None).
Proof. vm_compute. reflexivity. Qed.

(** A summary that cannot be opened, or whose documents do not load, ends
    both the aggregation and the listing. *)
Example aggregate_denied :
  Results.aggregate DemoArchive.denied (DemoArchive.args 0) = Raise (IOError 13).
Proof. vm_compute. reflexivity. Qed.

Example ls_denied :
  Ls.ls {| Ls.fs := DemoArchive.denied |} (DemoLs.args false) = ([], Some (IOError 13)).
Proof. vm_compute. reflexivity. Qed.

Example aggregate_not_a_mapping :
  Results.aggregate DemoArchive.not_a_mapping (DemoArchive.args 0) = Raise TypeError.
Proof. vm_compute. reflexivity. Qed.

Example ls_not_a_mapping :
  Ls.ls {| Ls.fs := DemoArchive.not_a_mapping |} (DemoLs.args false)
  = (["1 pass - one"; "2 (no summary.yaml)"], Some TypeError).
Proof. vm_compute. reflexivity. Qed.

Example ls_no_success :
  Ls.ls DemoLs.no_success (DemoLs.args false)
  = (["6 pass - six"], Some (KeyError "success")).
Proof. vm_compute. reflexivity. Qed.

(** ** Further properties of [main] *)

(** X1: when one of the collections given is not a directory, [main]
    exits with status 1 before it lists a directory or invokes the
    scheduler, wherever that collection stands on the command line. *)
Theorem not_a_directory_exits munge s a h c :
  c ∈ Suite.collections a ->
  isdir (Suite.fs s) c = false ->
  Suite.main munge s a h = (h, Raise (SystemExit 1)).
Proof.
  intros Hin Hc. unfold Suite.main.
  assert (Hall : forallb (isdir (Suite.fs s)) (Suite.collections a) = false).
  { apply not_true_is_false. intros Hall. rewrite forallb_forall in Hall.
    apply list_elem_of_In, Hall in Hin. congruence. }
  rewrite Hall. reflexivity.
Qed.

Lemma not_a_directory_exits_witness :
  Suite.main SafePath.munge Demo.sys (Demo.args ["suites/basic"; "suites/nowhere"]) []
  = ([], Raise (SystemExit 1)).
Proof.
  apply (not_a_directory_exits SafePath.munge Demo.sys
           (Demo.args ["suites/basic"; "suites/nowhere"]) [] "suites/nowhere").
  - right. left.
  - reflexivity.
Defined.

Lemma planned_prefix_no_flag munge s a pre arg post :
  More.planned munge s a = pre ++ arg :: post -> post <> [] ->
  Forall (fun j => Spec.carries_last_in_suite j = false) (pre ++ [arg]).
Proof.
  intros Hplan Hpost. unfold More.planned in Hplan.
  destruct (exists_last Hpost) as (post' & x & ->).
  change (pre ++ arg :: post' ++ [x]) with (pre ++ (arg :: post') ++ [x]) in Hplan.
  rewrite app_assoc in Hplan. apply app_inj_tail in Hplan as [Hjobs _].
  pose proof (job_args_no_flag s a munge) as Hall. rewrite Hjobs in Hall.
  apply Forall_app in Hall as [Hpre Harg]. apply Forall_app. split; [exact Hpre|].
  apply Forall_cons in Harg as [Harg _]. now constructor.
Qed.

(** Where a sequence of invocations stops, every earlier one had
    succeeded. *)
Lemma calls_failed s l h h' r :
  Suite.for_each l (Suite.check_call s) h = (h', r) ->
  r <> Ok () ->
  exists pre arg post,
    l = pre ++ arg :: post
    /\ h' = h ++ pre ++ [arg]
    /\ Suite.exit_zero s (h ++ pre) arg = false
    /\ r = Raise (CalledProcessError arg)
    /\ (forall p1 x p2, pre = p1 ++ x :: p2 -> Suite.exit_zero s (h ++ p1) x = true).
Proof.
  revert h. induction l as [|y l IH]; intros h Hrun Hr.
  - injection Hrun as <- <-. now destruct Hr.
  - simpl in Hrun. unfold mbind, Suite.run_bind, Suite.check_call in Hrun.
    destruct (Suite.exit_zero s h y) eqn:Hy.
    + destruct (IH _ Hrun Hr) as (pre & arg & post & -> & -> & Hz & -> & Hall).
      exists (y :: pre), arg, post. rewrite <- !app_assoc in *. simpl in *.
      split_and!; try reflexivity; [exact Hz|].
      intros [|z p1] x p2 Heq; injection Heq as <- Heq.
      * now rewrite app_nil_r.
      * specialize (Hall p1 x p2 Heq). now rewrite <- app_assoc in Hall.
    + injection Hrun as <- <-. exists [], y, l. rewrite app_nil_r.
      split_and!; try reflexivity; [exact Hy|].
      intros [|? ?] ? ? Heq; discriminate.
Qed.



Lemma forallb_perm {A} (p : A -> bool) (l l' : list A) :
  l ≡ₚ l' -> forallb p l = forallb p l'.
Proof.
  induction 1 as [|x l l' _ IH|x y l|l l' l'' _ IH1 _ IH2]; simpl.
  - reflexivity.
  - now rewrite IH.
  - now rewrite !andb_assoc, (andb_comm (p y)).
  - now rewrite IH1.
Qed.

(** X3: a run does not depend on the order in which the collections are
    given on the command line: the same invocations are made in the same
    order, and the run ends the same way. *)
Theorem run_ignores_collection_order munge s a a' h :
  More.same_request a a' ->
  Suite.main munge s a' h = Suite.main munge s a h.
Proof.
  destruct a as [v n cs o e t cf], a' as [v' n' cs' o' e' t' cf'].
  intros Hsame. unfold More.same_request in Hsame. cbn in Hsame.
  destruct Hsame as (-> & -> & -> & -> & -> & -> & Hp).
  unfold Suite.main. cbn [Suite.collections].
  rewrite (forallb_perm _ _ _ Hp).
  assert (Hord :
    Suite.processing_order munge
      {| Suite.verbose := v; Suite.name := n; Suite.collections := cs';
         Suite.owner := o; Suite.email := e; Suite.timeout := t; Suite.config := cf |}
    = Suite.processing_order munge
      {| Suite.verbose := v; Suite.name := n; Suite.collections := cs;
         Suite.owner := o; Suite.email := e; Suite.timeout := t; Suite.config := cf |}).
  { unfold Suite.processing_order. apply sorted_tuples_stable.
    unfold Suite.named_collections. cbn [Suite.collections]. now rewrite Hp. }
  rewrite Hord. unfold mbind, Suite.run_bind.
  destruct (forallb _ cs); [|reflexivity]. unfold mret, Suite.run_ret.
  erewrite for_each_ext; [reflexivity|]. intros c h' _. reflexivity.
Qed.

Lemma run_ignores_collection_order_witness :
  Suite.main SafePath.munge Demo.sys
    (Demo.args ["suites/hollow"; "suites/empty"; "suites/basic"]) []
  = Suite.main SafePath.munge Demo.sys
      (Demo.args ["suites/basic"; "suites/hollow"; "suites/empty"]) [].
Proof.
  apply (run_ignores_collection_order SafePath.munge Demo.sys
           (Demo.args ["suites/basic"; "suites/hollow"; "suites/empty"])
           (Demo.args ["suites/hollow"; "suites/empty"; "suites/basic"]) []).
  repeat split. simpl.
  change (["suites/hollow"; "suites/empty"; "suites/basic"]
          ≡ₚ ["suites/basic"] ++ ["suites/hollow"; "suites/empty"]).
  apply (Permutation_app_comm ["suites/hollow"; "suites/empty"] ["suites/basic"]).
Defined.

(** ** Further properties of the poller *)

Section PollingLoop.
Variable w : Results.World.
Variable a : Results.Args.
Variable starttime : Z.

Lemma wait_loop_stop fuel st :
  Results.running_tests st = [] \/ (Results.timeout a <= 0)%Z ->
  Results.wait_loop fuel w a starttime st = Some st.
Proof.
  intros [Hnil|Ht].
  - destruct fuel; simpl; now rewrite Hnil.
  - now apply wait_loop_no_timeout.
Qed.

Lemma wait_loop_out_of_fuel st :
  Results.running_tests st <> [] -> (0 < Results.timeout a)%Z ->
  Results.wait_loop 0 w a starttime st = None.
Proof.
  intros Hne Hpos. simpl. destruct (Results.running_tests st); [contradiction|].
  apply Z.ltb_lt in Hpos. now rewrite Hpos.
Qed.

(** One turn of the loop on a list whose last job is [j]. *)
Lemma wait_loop_step fuel st front j :
  Results.running_tests st = front ++ [j] -> (0 < Results.timeout a)%Z ->
  Results.wait_loop (S fuel) w a starttime st
  = if path_exists (Results.fs_at w (Results.now st)) (Results.summary_fn a j)
    then Results.wait_loop fuel w a starttime
           {| Results.running_tests := front;
              Results.now := (Results.now st + Z.of_N (Results.lag w (Results.now st)))%Z;
              Results.sleeps := Results.sleeps st |}
    else if (Results.timeout a <? Results.now st - starttime)%Z then Some st
    else Results.wait_loop fuel w a starttime
           {| Results.running_tests := front ++ [j];
              Results.now :=
                (Results.now st + 10 + Z.of_N (Results.lag w (Results.now st)))%Z;
              Results.sleeps := S (Results.sleeps st) |}.
Proof.
  intros Hrun Hpos. cbn [Results.wait_loop]. rewrite Hrun.
  apply Z.ltb_lt in Hpos. rewrite Hpos. cbn [negb].
  rewrite removelast_last.
  destruct (front ++ [j]) as [|x l] eqn:Hl; [now destruct front|].
  rewrite <- Hl, last_last. reflexivity.
Qed.

Lemma nil_or_snoc (l : list string) : l = [] \/ exists front j, l = front ++ [j].
Proof.
  destruct l as [|x l]; [now left|]. right.
  destruct (@exists_last _ (x :: l)) as (front & j & ->); [discriminate|]. eauto.
Qed.

(** What a run of the loop keeps: the jobs it drops had a summary when it
    looked; the clock does not go back and at least ten seconds pass per
    sleep; every sleep is begun before the deadline has passed; and it
    gives up only after the deadline, on a job without a summary. *)
Lemma wait_loop_inv fuel st st' :
  Results.wait_loop fuel w a starttime st = Some st' ->
  (exists dropped,
      Results.running_tests st = Results.running_tests st' ++ dropped
      /\ Forall (More.seen_within w a (Results.now st) (Results.now st')) dropped)
  /\ (10 * (Z.of_nat (Results.sleeps st') - Z.of_nat (Results.sleeps st))
      <= Results.now st' - Results.now st)%Z
  /\ Results.sleeps st <= Results.sleeps st'
  /\ (Results.sleeps st' = Results.sleeps st
      \/ ((0 < Results.timeout a)%Z
          /\ (10 * (Z.of_nat (Results.sleeps st') - Z.of_nat (Results.sleeps st) - 1)
              + (Results.now st - starttime) <= Results.timeout a)%Z))
  /\ ((0 < Results.timeout a)%Z -> Results.running_tests st' <> [] ->
      (Results.timeout a < Results.now st' - starttime)%Z
      /\ exists front j, Results.running_tests st' = front ++ [j]
           /\ path_exists (Results.fs_at w (Results.now st'))
                (Results.summary_fn a j) = false).
Proof.
  revert st. induction fuel as [|fuel IH]; intros st Hrun.
  all: destruct (nil_or_snoc (Results.running_tests st)) as [Hnil|(front & j & Hsnoc)].
  all: destruct (Z.lt_ge_cases 0 (Results.timeout a)) as [Hpos|Hneg].
  all: try (rewrite wait_loop_stop in Hrun by (auto; right; lia);
            injection Hrun as <-;
            split; [exists []; now rewrite app_nil_r|];
            split; [lia|]; split; [lia|]; split; [now left|];
            intros ? ?; first [contradiction | lia]).
  - rewrite wait_loop_out_of_fuel in Hrun; [discriminate| |exact Hpos].
    rewrite Hsnoc. now destruct front.
  - rewrite (wait_loop_step _ _ _ _ Hsnoc Hpos) in Hrun.
    pose proof (N2Z.is_nonneg (Results.lag w (Results.now st))) as Hlag.
    destruct (path_exists _ _) eqn:Hex.
    + apply IH in Hrun as ((dropped & Hd & Hseen) & Hnow & Hs & Hb & Hlast).
      cbn [Results.running_tests Results.now Results.sleeps] in *.
      split.
      { exists (dropped ++ [j]). split.
        - now rewrite Hsnoc, Hd, app_assoc.
        - apply Forall_app. split.
          + eapply Forall_impl; [exact Hseen|]. intros x (t & Ht & Hx).
            exists t. split; [lia|exact Hx].
          + constructor; [|constructor].
            exists (Results.now st). split; [lia|exact Hex]. }
      split; [lia|]. split; [lia|]. split; [|exact Hlast].
      destruct Hb as [Hb|[_ Hb]]; [now left|right; split; [exact Hpos|lia]].
    + destruct (Results.timeout a <? Results.now st - starttime)%Z eqn:Hlate.
      * injection Hrun as <-. apply Z.ltb_lt in Hlate.
        split; [exists []; now rewrite app_nil_r|].
        split; [lia|]. split; [lia|]. split; [now left|].
        intros _ _. split; [exact Hlate|]. now exists front, j.
      * apply Z.ltb_ge in Hlate.
        apply IH in Hrun as ((dropped & Hd & Hseen) & Hnow & Hs & Hb & Hlast).
        cbn [Results.running_tests Results.now Results.sleeps] in *.
        split.
        { exists dropped. split; [now rewrite Hsnoc|].
          eapply Forall_impl; [exact Hseen|]. intros x (t & Ht & Hx).
          exists t. split; [lia|exact Hx]. }
        split; [lia|]. split; [lia|]. split; [|exact Hlast].
        right. split; [exact Hpos|]. destruct Hb as [Hb|[_ Hb]]; lia.
Qed.

End PollingLoop.

Example poll_all_finished :
  Results.poll 10 (DemoRun.growing_world ["2"; "1"]) (DemoArchive.args 25)
  = Some (Ok {| Results.running_tests := []; Results.now := 1020%Z;
                Results.sleeps := 2 |}).
Proof. vm_compute. reflexivity. Qed.

Example poll_timed_out_on_newest :
  Results.poll 10 (DemoRun.growing_world ["2"; "1"; "3"]) (DemoArchive.args 25)
  = Some (Ok {| Results.running_tests := ["1"; "2"; "3"]; Results.now := 1030%Z;
                Results.sleeps := 3 |}).
Proof. vm_compute. reflexivity. Qed.

(** With a timeout of ten seconds and a sleep that takes eleven, the
    poller gives up after one sleep. *)
Example poll_late_clock :
  Results.poll 10 (DemoRun.late_world ["3"]) (DemoArchive.args 10)
  = Some (Ok {| Results.running_tests := ["3"]; Results.now := 1011%Z;
                Results.sleeps := 1 |}).
Proof. vm_compute. reflexivity. Qed.

Lemma length_initial_running fs a names :
  length (Spec.unfinished_jobs fs a (Spec.visible names)) <= length (Spec.visible names).
Proof. unfold Spec.unfinished_jobs. apply filter_length_le. Qed.

Lemma initial_running_listed fs a names :
  listdir fs (Results.archive_dir a) = Some names ->
  Results.initial_running fs a = Ok (Spec.unfinished_jobs fs a (Spec.visible names)).
Proof.
  intros Hls. unfold Results.initial_running, os_listdir. rewrite Hls.
  cbn [mbind result_bind mret result_ret]. f_equal.
  unfold Spec.unfinished_jobs, Spec.visible, Spec.shown.
  now rewrite list_filter_filter.
Qed.

(** What [poll] returns is what the loop makes of the first listing. *)
Lemma poll_inv fuel w a names st :
  listdir (Results.fs_at w (Results.start w)) (Results.archive_dir a) = Some names ->
  Results.poll fuel w a = Some (Ok st) ->
  Results.wait_loop fuel w a (Results.start w)
    {| Results.running_tests :=
         Spec.unfinished_jobs (Results.fs_at w (Results.start w)) a (Spec.visible names);
       Results.now := Results.start w; Results.sleeps := 0 |} = Some st.
Proof.
  intros Hls Hpoll. unfold Results.poll in Hpoll.
  rewrite (initial_running_listed _ _ _ Hls) in Hpoll.
  destruct (Results.wait_loop _ _ _ _ _) as [st0|]; [|discriminate].
  now injection Hpoll as ->.
Qed.

(** X4: the polling loop ends: one turn for every non-hidden entry of the
    archive and one for every ten seconds of the timeout, plus one, are
    always enough for the poller to return. *)
Theorem poll_terminates fuel w a names :
  listdir (Results.fs_at w (Results.start w)) (Results.archive_dir a) = Some names ->
  More.enough_fuel a (length (Spec.visible names)) <= fuel ->
  exists st, Results.poll fuel w a = Some (Ok st).
Proof.
  intros Hls Hfuel. unfold Results.poll.
  rewrite (initial_running_listed _ _ _ Hls).
  edestruct (wait_loop_returns fuel w a (Results.start w)) as [st ->];
    [|now eexists].
  cbn [Results.running_tests Results.now]. unfold More.enough_fuel in Hfuel.
  pose proof (length_initial_running (Results.fs_at w (Results.start w)) a names).
  replace (Results.timeout a - (Results.start w - Results.start w))%Z
    with (Results.timeout a) by lia.
  lia.
Qed.

Lemma poll_terminates_witness :
  exists st, Results.poll 6 (DemoRun.growing_world ["2"; "1"; "3"]) (DemoArchive.args 25)
             = Some (Ok st).
Proof.
  apply (poll_terminates 6 (DemoRun.growing_world ["2"; "1"; "3"]) (DemoArchive.args 25)
           ["2"; "1"; "3"] eq_refl).
  vm_compute. lia.
Defined.

(** X5: with a positive timeout the poller gives up on jobs only after
    the deadline: when it returns with jobs still held, more than the
    timeout has elapsed since it started, and the newest of the held jobs
    has no summary at that moment. *)
Theorem poll_gives_up_after_deadline fuel w a names st :
  listdir (Results.fs_at w (Results.start w)) (Results.archive_dir a) = Some names ->
  Results.poll fuel w a = Some (Ok st) ->
  (0 < Results.timeout a)%Z ->
  Results.running_tests st <> [] ->
  (Results.timeout a < Results.now st - Results.start w)%Z
  /\ exists front j, Results.running_tests st = front ++ [j]
       /\ path_exists (Results.fs_at w (Results.now st)) (Results.summary_fn a j) = false.
Proof.
  intros Hls Hpoll Hpos Hne.
  apply (poll_inv _ _ _ _ _ Hls), wait_loop_inv in Hpoll as (_ & _ & _ & _ & Hlast).
  now apply Hlast.
Qed.

Lemma poll_gives_up_after_deadline_witness :
  (25 < 1030 - 1000)%Z
  /\ exists front j, ["1"; "2"; "3"] = front ++ [j]
       /\ path_exists (DemoRun.growing ["2"; "1"; "3"] 1030) (Results.summary_fn (DemoArchive.args 25) j)
          = false.
Proof.
  apply (poll_gives_up_after_deadline 10 (DemoRun.growing_world ["2"; "1"; "3"])
           (DemoArchive.args 25) ["2"; "1"; "3"]
           {| Results.running_tests := ["1"; "2"; "3"]; Results.now := 1030%Z;
              Results.sleeps := 3 |} eq_refl).
  - vm_compute. reflexivity.
  - reflexivity.
  - discriminate.
Defined.

(** X6: the poller drops jobs only from the newest end of the list it
    started with, and only jobs whose summary existed at some moment
    between its start and its return: the jobs it still holds are a
    prefix of the jobs that had no summary at the first listing. *)
Theorem poll_drops_only_finished fuel w a names st :
  listdir (Results.fs_at w (Results.start w)) (Results.archive_dir a) = Some names ->
  Results.poll fuel w a = Some (Ok st) ->
  exists dropped,
    Spec.unfinished_jobs (Results.fs_at w (Results.start w)) a (Spec.visible names)
    = Results.running_tests st ++ dropped
    /\ Forall (More.seen_within w a (Results.start w) (Results.now st)) dropped.
Proof.
  intros Hls Hpoll.
  apply (poll_inv _ _ _ _ _ Hls), wait_loop_inv in Hpoll as (Hdrop & _).
  exact Hdrop.
Qed.

Lemma poll_drops_only_finished_witness :
  exists dropped,
    ["1"; "2"] = [] ++ dropped
    /\ Forall (More.seen_within (DemoRun.growing_world ["2"; "1"]) (DemoArchive.args 25)
                 1000 1020) dropped.
Proof.
  apply (poll_drops_only_finished 10 (DemoRun.growing_world ["2"; "1"])
           (DemoArchive.args 25) ["2"; "1"]
           {| Results.running_tests := []; Results.now := 1020%Z;
              Results.sleeps := 2 |} eq_refl).
  vm_compute. reflexivity.
Defined.



(** ** Further properties of the aggregation and the report *)

Lemma filter_negb_perm {A} (p : A -> bool) (l : list A) :
  List.filter p l ++ List.filter (fun x => negb (p x)) l ≡ₚ l.
Proof.
  induction l as [|x l IH]; [reflexivity|]. simpl.
  destruct (p x); simpl.
  - now rewrite IH.
  - rewrite <- Permutation_middle. now rewrite IH.
Qed.

Lemma filter_negb_nil {A} (p : A -> bool) (l : list A) :
  List.filter (fun x => negb (p x)) l = [] -> List.filter p l = l.
Proof.
  induction l as [|x l IH]; [reflexivity|]. simpl.
  destruct (p x); simpl; [|discriminate]. intros H. now rewrite IH.
Qed.

Lemma classes_perm fs a (jobs : list string) :
  Spec.passed_jobs fs a jobs ++ Spec.failed_jobs fs a jobs
  ++ Spec.unfinished_jobs fs a jobs ≡ₚ jobs.
Proof.
  unfold Spec.passed_jobs, Spec.failed_jobs, Spec.unfinished_jobs, Spec.finished_jobs.
  rewrite app_assoc, filter_negb_perm. apply filter_negb_perm.
Qed.

(** X8: when the aggregation ends normally, every non-hidden entry of the
    archive is in exactly one of the three classes: the passed, the failed
    and the unfinished jobs make up the entries, the three numbers of the
    subject add up to the number of entries, and hidden entries are in no
    list. *)
Theorem every_job_in_one_class fs a names t :
  listdir fs (Results.archive_dir a) = Some names ->
  Results.aggregate fs a = Ok t ->
  let jobs := Spec.visible names in
  Spec.passed_jobs fs a jobs ++ Spec.failed_jobs fs a jobs
  ++ Spec.unfinished_jobs fs a jobs ≡ₚ jobs
  /\ length (Results.passed t) = length (Spec.passed_jobs fs a jobs)
  /\ Results.num_failures t = length (Spec.failed_jobs fs a jobs)
  /\ Results.unfinished t = Spec.unfinished_jobs fs a jobs
  /\ length (Results.passed t) + Results.num_failures t + length (Results.unfinished t)
     = length jobs
  /\ (forall j, j ∈ Results.unfinished t -> Py.startswith j "." = false).
Proof.
  intros Hls Hagg jobs.
  destruct (aggregate_ok fs a names t Hls Hagg) as (_ & Hu & Hp & _ & Hn).
  fold jobs in Hu, Hp, Hn.
  pose proof (classes_perm fs a jobs) as Hperm.
  split; [exact Hperm|]. split; [now rewrite Hp, length_fmap|].
  split; [exact Hn|]. split; [exact Hu|]. split.
  - rewrite Hp, Hn, Hu, length_fmap. apply Permutation_length in Hperm.
    rewrite !length_app in Hperm. lia.
  - intros j Hj. rewrite Hu in Hj. unfold Spec.unfinished_jobs in Hj.
    apply elem_of_list_filter in Hj as [_ Hj]. unfold jobs, Spec.visible, Spec.shown in Hj.
    apply elem_of_list_filter in Hj as [Hj _]. now apply negb_true_iff.
Qed.

Lemma every_job_in_one_class_witness :
  exists t, Results.aggregate DemoArchive.archive (DemoArchive.args 0) = Ok t
    /\ length (Results.passed t) + Results.num_failures t + length (Results.unfinished t)
       = 4.
Proof.
  eexists. split; [vm_compute; reflexivity|].
  apply (every_job_in_one_class DemoArchive.archive (DemoArchive.args 0)
           ["3"; "1"; ".lock"; "2"; "4"] _ eq_refl eq_refl).
Defined.

Lemma merge_docs_snoc docs d : Results.merge_docs (docs ++ [d]) = d ∪ Results.merge_docs docs.
Proof. unfold Results.merge_docs. now rewrite foldl_app. Qed.

(** X9: in a summary of several documents the last document that has a
    key decides its value, whatever the earlier documents say; a key that
    no document has is absent from the merged summary. *)
Theorem last_document_decides docs k :
  (forall before d after v,
      docs = before ++ d :: after ->
      d !! k = Some v ->
      Forall (fun d' : gmap string value => d' !! k = None) after ->
      Results.merge_docs docs !! k = Some v)
  /\ (Forall (fun d : gmap string value => d !! k = None) docs ->
      Results.merge_docs docs !! k = None).
Proof.
  split.
  - intros before d after v -> Hd Hafter.
    induction after as [|d' after IH] using rev_ind.
    + change (before ++ [d]) with (before ++ [d]).
      rewrite merge_docs_snoc. apply lookup_union_Some_l. exact Hd.
    + apply Forall_app in Hafter as [Hafter Hd'].
      apply Forall_cons in Hd' as [Hd' _].
      change (before ++ d :: after ++ [d']) with (before ++ (d :: after) ++ [d']).
      rewrite app_assoc, merge_docs_snoc, lookup_union_r by exact Hd'.
      apply IH. exact Hafter.
  - induction docs as [|d docs IH] using rev_ind; intros Hall.
    + apply lookup_empty.
    + apply Forall_app in Hall as [Hall Hd]. apply Forall_cons in Hd as [Hd _].
      rewrite merge_docs_snoc, lookup_union_r by exact Hd. now apply IH.
Qed.

Lemma last_document_decides_witness :
  Results.merge_docs
    [DemoArchive.doc [("description", VStr "d"); ("success", VBool false)];
     DemoArchive.doc [("success", VBool true); ("owner", VStr "qa")];
     DemoArchive.doc [("owner", VStr "qa2")]] !! "success" = Some (VBool true).
Proof.
  apply (proj1 (last_document_decides _ "success")
           [DemoArchive.doc [("description", VStr "d"); ("success", VBool false)]]
           (DemoArchive.doc [("success", VBool true); ("owner", VStr "qa")])
           [DemoArchive.doc [("owner", VStr "qa2")]] (VBool true) eq_refl).
  - vm_compute. reflexivity.
  - repeat constructor.
Defined.

(** X10: when the aggregation finds no failed and no unfinished job, the
    report has the subject of full success and its body is the list of
    the lines of all non-hidden entries of the archive, in ascending
    order, one per line. *)
Theorem success_report_lists_every_job fs a names t :
  listdir fs (Results.archive_dir a) = Some names ->
  Results.aggregate fs a = Ok t ->
  Results.failures t = [] ->
  Results.unfinished t = [] ->
  Results.compose a t
  = (Results.success_subject a,
     Py.join Results.nl (Spec.line_of fs a <$> Spec.visible names))
  /\ Results.passed t = Results.descriptions t.
Proof.
  intros Hls Hagg Hf Hu.
  destruct (aggregate_ok fs a names t Hls Hagg) as (Hd & Hu' & Hp & Hf' & _).
  assert (Hfin : Spec.finished_jobs fs a (Spec.visible names) = Spec.visible names).
  { apply filter_negb_nil. fold (Spec.unfinished_jobs fs a (Spec.visible names)).
    now rewrite <- Hu'. }
  assert (Hfailed : Spec.failed_jobs fs a (Spec.visible names) = []).
  { rewrite Hf in Hf'. destruct (Spec.failed_jobs fs a (Spec.visible names)); [reflexivity|].
    rewrite bind_cons in Hf'. discriminate. }
  assert (Hpass : Spec.passed_jobs fs a (Spec.visible names) = Spec.visible names).
  { unfold Spec.passed_jobs. rewrite Hfin. apply filter_negb_nil.
    unfold Spec.failed_jobs in Hfailed. now rewrite Hfin in Hfailed. }
  split.
  - unfold Results.compose. rewrite Hf, Hu. cbn [Results.nonnil orb].
    now rewrite Hd, Hfin.
  - now rewrite Hp, Hd, Hpass, Hfin.
Qed.

Lemma success_report_lists_every_job_witness :
  exists t, Results.aggregate DemoRun.all_passed (DemoArchive.args 0) = Ok t
    /\ Results.compose (DemoArchive.args 0) t
       = ("All tests passed in nightly!",
          Py.join Results.nl ["10: ten"; "11: eleven"]).
Proof.
  eexists. split; [vm_compute; reflexivity|].
  etransitivity.
  - apply (success_report_lists_every_job DemoRun.all_passed (DemoArchive.args 0)
             ["11"; "10"; ".hidden"] _ eq_refl eq_refl eq_refl eq_refl).
  - vm_compute. reflexivity.
Defined.

(** X11: whenever the poller returns, [results] starts the coverage
    report, after its sleeps and before it reads a summary, so also when
    the aggregation then fails; it sends at most one message, and only
    when an address is given and the aggregation ended normally: from the
    configured sender to that address. *)
Theorem results_events fuel w cfg a st :
  Results.poll fuel w a = Some (Ok st) ->
  exists mails r,
    Results.results fuel w cfg a
    = Some (replicate (Results.sleeps st) (Results.Sleep 10)
            ++ Results.Popen (Results.coverage_argv w cfg a) :: mails, r)
    /\ (mails = []
        \/ exists to subject body,
             r = Ok () /\ Results.email a = Some to /\ Py.nonempty to = true
             /\ mails = [Results.Sendmail
                           {| Results.msg_subject := subject;
                              Results.msg_from := Results.results_sending_email cfg;
                              Results.msg_to := to;
                              Results.msg_body := body |}])
    /\ (Py.truthy (Results.email a) = false -> mails = [])
    /\ (r <> Ok () -> mails = []).
Proof.
  intros Hpoll. unfold Results.results. rewrite Hpoll.
  destruct (Results.aggregate _ a) as [t|e].
  - exists (Results.report cfg a t), (Ok ()). rewrite <- app_assoc.
    split; [reflexivity|]. unfold Results.report, Py.truthy.
    destruct (Results.email a) as [to|]; [|auto].
    destruct (Py.nonempty to) eqn:Hto; [|auto].
    destruct (Results.compose a t) as [subject body]. split_and!.
    + right. now exists to, subject, body.
    + discriminate.
    + intros Hr. now destruct Hr.
  - exists [], (Raise e). split; [reflexivity|]. auto.
Qed.

Lemma results_events_witness :
  exists mails r,
    Results.results 10 (DemoRun.growing_world ["2"; "1"]) DemoArchive.cfg
      (DemoArchive.args 25)
    = Some ([Results.Sleep 10; Results.Sleep 10;
             Results.Popen
               ["/usr/bin/teuthology-coverage"; "-v"; "-o"; "/cov/nightly";
                "--html-output"; "/html/nightly"; "--cov-tools-dir"; "/tools"; "/a"]]
            ++ mails, r).
Proof.
  destruct (results_events 10 (DemoRun.growing_world ["2"; "1"]) DemoArchive.cfg
              (DemoArchive.args 25)
              {| Results.running_tests := []; Results.now := 1020%Z;
                 Results.sleeps := 2 |})
    as (mails & r & Hres & _).
  - vm_compute. reflexivity.
  - exists mails, r. exact Hres.
Defined.

(** ** Properties of [ls] *)

Section Listing.
Variable w : Ls.World.
Variable a : Ls.Args.

(** How the body of the loop ends for an entry that is not hidden. *)
Lemma list_job_end j :
  Py.startswith j "." = false ->
  ((Ls.list_job w a j).2 = None /\ More.listed w a j)
  \/ (exists e, (Ls.list_job w a j).2 = Some e
        /\ ~ More.listed w a j
        /\ ((e = KeyError "success" /\ More.loads w a j
             /\ More.ls_summary w a j !! "success" = None)
            \/ More.fails_with w a j e)).
Proof.
  intros Hhid.
  unfold Ls.list_job, More.listed, More.missing, More.loads, More.fails_with,
    More.ls_summary, Ls.open_errno, Results.read_summary.
  rewrite Hhid.
  destruct (open_error (Ls.fs w) (Ls.summary_path a j)) as [errno|] eqn:Hopen.
  { destruct (errno =? Ls.ENOENT)%Z eqn:Herr.
    - apply Z.eqb_eq in Herr as ->. left. auto.
    - apply Z.eqb_neq in Herr. right. exists (IOError errno). split; [reflexivity|].
      split; [intros [[[= ->]|[[=] _]]|[[[=] _] _]]; contradiction|].
      right. split; [congruence|]. left. now exists errno. }
  destruct (load_error (Ls.fs w) (Ls.summary_path a j)) as [e|] eqn:Hload.
  { assert (Hother : e <> IOError Ls.ENOENT ->
              (exists e', Some e = Some e'
                 /\ ~ ((None = Some Ls.ENOENT
                        \/ (None = None :> option Z) /\ Some e = Some (IOError Ls.ENOENT))
                       \/ ((None = None :> option Z) /\ Some e = None)
                          /\ is_Some (Results.merge_docs
                                        (load_all (Ls.fs w) (Ls.summary_path a j))
                                      !! "success"))
                 /\ ((e' = KeyError "success"
                      /\ ((None = None :> option Z) /\ Some e = None)
                      /\ Results.merge_docs (load_all (Ls.fs w) (Ls.summary_path a j))
                         !! "success" = None)
                     \/ e' <> IOError Ls.ENOENT
                        /\ ((exists errno, None = Some errno /\ e' = IOError errno)
                            \/ (None = None :> option Z) /\ Some e = Some e')))).
    { intros Hne. exists e. split; [reflexivity|]. split.
      - intros [[[=]|[_ [= ->]]]|[[_ [=]] _]]. contradiction.
      - right. auto. }
    destruct e as [path|errno| | | |key|argv|code];
      try (right; apply Hother; discriminate).
    destruct (errno =? Ls.ENOENT)%Z eqn:Herr.
    - apply Z.eqb_eq in Herr as ->. left. auto.
    - apply Z.eqb_neq in Herr. right. apply Hother. congruence. }
  destruct (Results.merge_docs _ !! "success") as [ok|] eqn:Hok.
  - left. split; [reflexivity|]. right. eauto.
  - right. exists (KeyError "success"). split; [reflexivity|]. split.
    + intros [[[=]|[_ [=]]]|[_ [v [=]]]].
    + left. auto.
Qed.

(** The lines of a listing that ends normally are those of its entries. *)
Lemma list_jobs_lines jobs :
  (Ls.list_jobs w a jobs).2 = None ->
  (Ls.list_jobs w a jobs).1 = j ← jobs; (Ls.list_job w a j).1.
Proof.
  induction jobs as [|j jobs IH]; [reflexivity|].
  cbn [Ls.list_jobs]. rewrite bind_cons.
  destruct (Ls.list_job w a j) as [lines [e|]]; [discriminate|].
  destruct (Ls.list_jobs w a jobs) as [more r]. cbn [fst snd] in *.
  intros ->. now rewrite IH.
Qed.

Lemma list_jobs_end jobs :
  (Ls.list_jobs w a jobs).2 = None
  <-> Forall (fun j => (Ls.list_job w a j).2 = None) jobs.
Proof.
  induction jobs as [|j jobs IH]; [split; [constructor|reflexivity]|].
  cbn [Ls.list_jobs].
  destruct (Ls.list_job w a j) as [lines [e|]] eqn:Hj.
  - split; [discriminate|]. intros Hall. apply Forall_cons in Hall as [Hall _].
    rewrite Hj in Hall. discriminate.
  - destruct (Ls.list_jobs w a jobs) as [more r]. cbn [fst snd] in *.
    rewrite Forall_cons, Hj. cbn [snd]. tauto.
Qed.

Lemma list_jobs_raises jobs e :
  (Ls.list_jobs w a jobs).2 = Some e ->
  exists j, j ∈ jobs /\ (Ls.list_job w a j).2 = Some e.
Proof.
  induction jobs as [|j jobs IH]; [discriminate|].
  cbn [Ls.list_jobs].
  destruct (Ls.list_job w a j) as [lines [e'|]] eqn:Hj.
  - cbn [snd]. intros [= <-]. exists j. rewrite Hj. split; [left|reflexivity].
  - destruct (Ls.list_jobs w a jobs) as [more r]. cbn [fst snd] in *.
    intros Hr. destruct (IH Hr) as (j' & Hin & Hj'). exists j'. split; [now right|exact Hj'].
Qed.

Lemma list_job_hidden j :
  Py.startswith j "." = true -> Ls.list_job w a j = ([], None).
Proof. intros Hhid. unfold Ls.list_job. now rewrite Hhid. Qed.

End Listing.

Lemma visible_sorted names j :
  j ∈ Spec.visible names <-> j ∈ Py.sorted names /\ Py.startswith j "." = false.
Proof.
  unfold Spec.visible, Spec.shown. rewrite elem_of_list_filter, negb_true_iff. tauto.
Qed.



(** Without [-v], an entry that does not end the listing gives one line
    if it is not hidden, none if it is. *)
Lemma list_job_one_line w a j :
  Ls.verbose a = false ->
  (Ls.list_job w a j).2 = None ->
  if Py.startswith j "." then (Ls.list_job w a j).1 = []
  else exists rest, (Ls.list_job w a j).1 = [j +:+ " " +:+ rest]
         /\ (More.opens w a j = false -> rest = "(no summary.yaml)").
Proof.
  intros Hv. unfold Ls.list_job, More.opens, Ls.open_errno, Results.read_summary.
  destruct (Py.startswith j "."); [reflexivity|].
  destruct (open_error (Ls.fs w) (Ls.summary_path a j)) as [errno|].
  - destruct (errno =? Ls.ENOENT)%Z; [|discriminate]. intros _.
    exists "(no summary.yaml)". split; reflexivity.
  - destruct (load_error (Ls.fs w) (Ls.summary_path a j)) as [e|].
    + destruct e as [path|errno| | | |key|argv|code]; try discriminate.
      destruct (errno =? Ls.ENOENT)%Z; [|discriminate]. intros _.
      exists "(no summary.yaml)". split; reflexivity.
    + destruct (_ !! "success") as [ok|]; [|discriminate]. intros _.
      rewrite Hv. eexists. split; [reflexivity|discriminate].
Qed.

(** X13: without [-v], a listing that ends normally has exactly one line
    for every non-hidden entry of the archive, in ascending order of the
    entries; the line starts with the entry's name and a space, and it is
    the line saying that there is no summary when the summary does not
    open. *)
Theorem ls_one_line_per_job w a names lines :
  listdir (Ls.fs w) (Ls.archive_dir a) = Some names ->
  Ls.verbose a = false ->
  Ls.ls w a = (lines, None) ->
  Forall2 (fun j line =>
             exists rest, line = j +:+ " " +:+ rest
               /\ (More.opens w a j = false -> rest = "(no summary.yaml)"))
          (Spec.visible names) lines.
Proof.
  intros Hls Hv Hrun. unfold Ls.ls in Hrun. rewrite Hls in Hrun.
  assert (Hend : (Ls.list_jobs w a (Py.sorted names)).2 = None) by now rewrite Hrun.
  pose proof (list_jobs_lines w a _ Hend) as Hlines. rewrite Hrun in Hlines.
  cbn [fst] in Hlines. subst lines. apply list_jobs_end in Hend. clear Hrun.
  unfold Spec.visible, Spec.shown.
  induction Hend as [|j jobs Hj _ IH]; [constructor|].
  rewrite bind_cons. cbn [List.filter].
  pose proof (list_job_one_line w a j Hv Hj) as Hone.
  destruct (Py.startswith j "."); cbn [negb].
  - rewrite Hone. exact IH.
  - destruct Hone as (rest & -> & Hrest). constructor; [|exact IH]. now exists rest.
Qed.

Lemma ls_one_line_per_job_witness :
  Forall2 (fun j line =>
             exists rest, line = j +:+ " " +:+ rest
               /\ (More.opens DemoLs.world (DemoLs.args false) j = false ->
                   rest = "(no summary.yaml)"))
          ["1"; "2"; "3"; "4"]
          ["1 pass qa collection:basic clusters:fixed.yaml";
           "2 (no summary.yaml)";
           "3 FAIL - collection:basic clusters:three.yaml";
           "4 FAIL - collection:basic clusters:four.yaml"].
Proof.
  apply (ls_one_line_per_job DemoLs.world (DemoLs.args false)
           ["3"; "1"; ".lock"; "2"; "4"] _ eq_refl eq_refl).
  vm_compute. reflexivity.
Defined.

(** ** [ls] and [results] on the same archive *)

Section Paths.

Lemma rev_cons (c : ascii) (s : string) :
  String.rev (String c s) = String.rev s +:+ String c "".
Proof.
  unfold String.rev. simpl. generalize (String c "").
  induction s as [|x s IH]; intros acc; [reflexivity|].
  simpl. rewrite IH, (IH (String x "")). now rewrite str_app_assoc.
Qed.

Lemma rev_append (s t : string) : String.rev (s +:+ t) = String.rev t +:+ String.rev s.
Proof.
  induction s as [|c s IH].
  - rewrite str_app_nil. symmetry. apply str_app_nil_r.
  - rewrite str_app_cons, !rev_cons, IH. apply str_app_assoc.
Qed.

Lemma rev_nonempty (s : string) : Py.nonempty s = true -> Py.nonempty (String.rev s) = true.
Proof.
  destruct s as [|c s]; [discriminate|]. intros _. rewrite rev_cons.
  now destruct (String.rev s).
Qed.

Lemma endswith_slash_app (s t : string) :
  Py.nonempty t = true -> Py.endswith (s +:+ t) "/" = Py.endswith t "/".
Proof.
  intros Ht. unfold Py.endswith. rewrite rev_append.
  apply rev_nonempty in Ht. destruct (String.rev t) as [|c r]; [discriminate|].
  rewrite str_app_cons. change (String.rev "/") with "/". cbn [String.prefix].
  destruct (ascii_dec "/" c); [|reflexivity].
  transitivity true; [now destruct (r +:+ String.rev s)|now destruct r].
Qed.

Lemma nonempty_app (s t : string) : Py.nonempty s = true -> Py.nonempty (s +:+ t) = true.
Proof. now destruct s. Qed.

(** Joining a plain directory and a plain name puts one separator
    between them. *)
Lemma join2_plain (d j : string) :
  Py.nonempty d = true -> Py.endswith d "/" = false -> Py.startswith j "/" = false ->
  OsPath.join2 d j = d +:+ "/" +:+ j.
Proof. intros Hd He Hj. unfold OsPath.join2. now rewrite Hj, Hd, He. Qed.

(** The path that [results] joins is the path that [ls] formats. *)
Lemma summary_paths_agree (d j : string) :
  More.plain_dir d -> More.plain_name j ->
  OsPath.join d [j; "summary.yaml"] = d +:+ "/" +:+ j +:+ "/summary.yaml".
Proof.
  intros [Hd He] (Hj & Hjs & Hje). unfold OsPath.join. cbn [foldl].
  rewrite (join2_plain d j Hd He Hjs). rewrite join2_plain.
  - now rewrite !str_app_assoc.
  - now apply nonempty_app.
  - rewrite endswith_slash_app; [|reflexivity].
    change ("/" +:+ j) with (String "/" "" +:+ j).
    now rewrite endswith_slash_app.
  - reflexivity.
Qed.

End Paths.

Section Agreement.
Variable w : Ls.World.
Variable la : Ls.Args.
Variable ra : Results.Args.
Hypothesis same_dir : Ls.archive_dir la = Results.archive_dir ra.
Hypothesis dir_plain : More.plain_dir (Ls.archive_dir la).

Lemma same_summary_path j :
  More.plain_name j -> Ls.summary_path la j = Results.summary_fn ra j.
Proof.
  intros Hj. unfold Ls.summary_path, Results.summary_fn. rewrite <- same_dir.
  symmetry. now apply summary_paths_agree.
Qed.

Lemma ls_summary_same j :
  More.plain_name j -> More.ls_summary w la j = Spec.summary_of (Ls.fs w) ra j.
Proof.
  intros Hj. unfold More.ls_summary, Spec.summary_of. now rewrite (same_summary_path j Hj).
Qed.

(** The lines of an entry whose summary is missing, and of one whose
    summary has the key [success]. *)
Lemma list_job_missing j :
  Py.startswith j "." = false ->
  Ls.open_errno w (Ls.summary_path la j) = Some Ls.ENOENT ->
  Ls.list_job w la j = ([j +:+ " (no summary.yaml)"], None).
Proof.
  intros Hhid Hopen. unfold Ls.list_job, Results.read_summary. rewrite Hhid.
  unfold Ls.open_errno in Hopen. now rewrite Hopen.
Qed.

Lemma list_job_status j ok :
  Py.startswith j "." = false -> More.loads w la j ->
  More.ls_summary w la j !! "success" = Some ok ->
  exists rest more,
    Ls.list_job w la j
    = ((j +:+ (if Results.py_bool ok then " pass " else " FAIL ") +:+ rest) :: more, None).
Proof.
  intros Hhid [Hopen Hload] Hok. unfold Ls.list_job, Results.read_summary. rewrite Hhid.
  unfold Ls.open_errno in Hopen. rewrite Hopen, Hload.
  fold (More.ls_summary w la j). rewrite Hok.
  eexists _, _. cbn [app]. f_equal. f_equal.
  destruct (Results.py_bool ok); reflexivity.
Qed.

(** A finished job that the aggregation passes has a summary that loads
    for [ls] and has the key [success]. *)
Lemma loads_finished names t j :
  listdir (Ls.fs w) (Results.archive_dir ra) = Some names ->
  Results.aggregate (Ls.fs w) ra = Ok t ->
  j ∈ Py.sorted names -> More.plain_name j -> Py.startswith j "." = false ->
  Spec.finished (Ls.fs w) ra j = true ->
  More.loads w la j /\ is_Some (More.ls_summary w la j !! "success").
Proof.
  intros Hls Hagg Hj Hplain Hhid Hfin.
  unfold Results.aggregate, os_listdir in Hagg. rewrite Hls in Hagg.
  cbn [mbind result_bind] in Hagg.
  destruct (classify_all_ok_inv (Ls.fs w) ra _ _ _ Hagg j Hj Hhid Hfin)
    as ([Hopen Hload] & _ & Hok).
  unfold More.loads, Ls.open_errno.
  rewrite (ls_summary_same j Hplain), (same_summary_path j Hplain). auto.
Qed.

End Agreement.


